(** * OAuth token acquisition and caching

    A shallow embedding of the OAuth login module: [futureToken],
    [vaultId], [deserializeToken], [serializeToken], [toVault],
    [fromVault] and [oauthLogin].

    The module is asynchronous TypeScript.  An async function is embedded
    as a program tree ([Prog]) whose nodes are the calls it makes on the
    module state and on its collaborators; a tree is run against an explicit
    [World] and an environment ([interp]) up to its end or to its next wait
    on a pending promise, where other calls and the environment take their
    turn: the cooperative scheduling of the event loop.

    Two smaller parts are embedded beside it: the keys and the lookup of
    the abapGit source controls ([scmKey], [findSc]) and the object factory
    ([fromObjectNode]). *)

From Stdlib Require Import PrimFloat Ascii.
From stdpp Require Import gmap strings list.

Set Warnings "-register-all".

(** ** JavaScript values *)

(** The values the module handles dynamically: what [JSON.parse] can return,
    plus [undefined]. A number is an IEEE binary64. *)
Inductive JValue : Type :=
| JUndefined
| JNull
| JBool (b : bool)
| JNum (x : float)
| JStr (s : string)
| JArr (items : list JValue)
| JObj (fields : list (string * JValue)).

(** ToBoolean. *)
Definition truthy (v : JValue) : bool :=
  match v with
  | JUndefined | JNull => false
  | JBool b => b
  | JNum x => negb (PrimFloat.is_zero x || PrimFloat.is_nan x)
  | JStr s => negb (String.eqb s "")
  | JArr _ | JObj _ => true
  end.

(** [s] of type [string | undefined], read as a condition. *)
Definition truthyS (s : option string) : bool :=
  match s with
  | Some s => negb (String.eqb s "")
  | None => false
  end.

(** The string behind a [string | undefined] that passed a truthiness test. *)
Definition str (s : option string) : string := default "" s.

Fixpoint assoc (k : string) (fields : list (string * JValue)) : JValue :=
  match fields with
  | [] => JUndefined
  | (k', v) :: rest => if String.eqb k k' then v else assoc k rest
  end.

(** [v.k] for the property names this module reads ([accessToken],
    [refreshToken], [tokenType]): an own property of an object, [undefined]
    on every other value. *)
Definition prop (v : JValue) (k : string) : JValue :=
  match v with
  | JObj fields => assoc k fields
  | _ => JUndefined
  end.

(** [a || b]. *)
Definition jor (a b : JValue) : JValue := if truthy a then a else b.

(** ** Errors and results *)

Record Error := mkError { message : string }.

(** A computation that returns or throws. *)
Inductive Result (A : Type) : Type :=
| Ok (a : A)
| Err (e : Error).
Arguments Ok {A} a.
Arguments Err {A} e.

(** ** Configuration ([RemoteConfig], from ../config) *)

Record OAuthConfig := mkOAuth {
  clientId : option string;
  clientSecret : option string;
  loginUrl : option string;
  saveCredentials : bool
}.

Record RemoteConfig := mkConfig {
  name : string;
  oauth : option OAuthConfig
}.

(** [const { clientId, clientSecret, loginUrl } = conf.oauth || {}] *)
Definition oauthFields (conf : RemoteConfig)
  : option string * option string * option string :=
  match oauth conf with
  | Some o => (clientId o, clientSecret o, loginUrl o)
  | None => (None, None, None)
  end.

(** ** Tokens *)

(** A client-oauth2 token: the three fields of [TokenData] and the protocol
    metadata (expiry, scope, ...) the module only passes through. The fields
    are typed [string] in the source; what [JSON.parse] hands to
    [deserializeToken] is untyped, so they are kept as values. *)
Record Token := mkToken {
  accessToken : JValue;
  refreshToken : JValue;
  tokenType : JValue;
  tokenExtra : list (string * JValue)
}.

(** Modelled from the spec: [strip] of ./grantStorage, which is not part of
    the sources at hand: "producing a minimal serializable projection of a
    token", keeping accessToken, refreshToken and tokenType. *)
Definition strip (t : Token) : Token :=
  mkToken (accessToken t) (refreshToken t) (tokenType t) [].

(** An untyped object read at type [TokenData]. *)
Definition tokenOfObject (d : JValue) : Token :=
  mkToken (prop d "accessToken") (prop d "refreshToken") (prop d "tokenType")
          (match d with JObj fields => fields | _ => [] end).

(** A token as the object [JSON.stringify] is given. *)
Definition objectOfToken (t : Token) : JValue :=
  JObj (("accessToken", accessToken t) :: ("refreshToken", refreshToken t)
        :: ("tokenType", tokenType t) :: tokenExtra t).

(** ** The runtime and ../config

    [formatKey] is imported from ../config, [JSON.parse] and [JSON.stringify]
    are the language's: the module is embedded over any of them. [JSON_parse]
    returns [Err] where [JSON.parse] throws a SyntaxError. *)
Class Runtime := {
  formatKey : string → string;
  JSON_parse : string → Result JValue;
  JSON_stringify : JValue → string
}.

Section Serialization.
Context `{Runtime}.

(** [const vaultId = (conn: string) => `vscode_git_${formatKey(conn)}`] *)
Definition vaultId (conn : string) : string :=
  "vscode_git_" +:+ formatKey conn.

(** [const data = s && JSON.parse(s)] *)
Definition parseIfAny (s : option string) : Result JValue :=
  match s with
  | None => Ok JUndefined
  | Some text => if truthyS s then JSON_parse text else Ok (JStr text)
  end.

(** [deserializeToken]: [Ok None] is [undefined], [Err] a thrown error. *)
Definition deserializeToken (s : option string) : Result (option Token) :=
  match parseIfAny s with
  | Err e => Err e
  | Ok data =>
      let d := jor data (JObj []) in
      let accessToken := prop d "accessToken" in
      let refreshToken := prop d "refreshToken" in
      let tokenType := prop d "tokenType" in
      if truthy accessToken && truthy refreshToken && truthy tokenType
      then Ok (Some (strip (tokenOfObject data)))
      else Ok None
  end.

(** [const serializeToken = (data: TokenData) => JSON.stringify(data)] *)
Definition serializeToken (data : Token) : string :=
  JSON_stringify (objectOfToken data).

End Serialization.

(** ** The module state and its collaborators *)

(** Promises and login servers are heap objects, named by a number. *)
Abbreviation PromiseId := nat (only parsing).
Abbreviation ServerId := nat (only parsing).

(** The one callback of the module, the [then] of the timeout:
    [() => { server.server.close(); throw new Error(...) }]. *)
Inductive Callback : Type :=
| CloseThenThrow (server : ServerId) (e : Error).

Inductive PState : Type :=
| Pending
| Settled (r : Result Token).

Inductive PKind : Type :=
| KGrant (server : ServerId)
| KTimer (deadline : N) (cb : Callback)
| KRace (ps : list PromiseId).

Record Promise := mkPromise { p_kind : PKind; p_state : PState }.

(** What [fromVault] hands to client-oauth2: the options of
    [new ClientOAuth2] and the arguments of [createToken]. *)
Record RefreshRequest := mkRefresh {
  authorizationUri : string;
  accessTokenUri : string;
  redirectUri : string;
  rq_clientId : string;
  rq_clientSecret : string;
  rq_accessToken : JValue;
  rq_refreshToken : JValue;
  rq_tokenType : JValue
}.

(** The calls the module makes on its collaborators, in order. *)
Inductive Event : Type :=
| EvLoginServer (s : ServerId)
| EvCfCodeGrant (loginUrl clientId clientSecret : option string)
                (s : ServerId) (p : PromiseId)
| EvAfter (ms : N) (p : PromiseId)
| EvServerClose (s : ServerId)
| EvGetPassword (service account : string)
| EvSetPassword (service account secret : string)
| EvRefresh (rq : RefreshRequest).

(** [tokens] is the TokenStore behind [getToken]/[setToken];
    [pendingGrants] is the module's [Map<string, Promise<Token>>]. *)
Record World := mkWorld {
  now : N;
  tokens : gmap string Token;
  pendingGrants : gmap string nat;
  promises : gmap nat Promise;
  fresh : nat;
  trace : list Event
}.

Definition set_tokens (m : gmap string Token) (w : World) : World :=
  mkWorld (now w) m (pendingGrants w) (promises w) (fresh w) (trace w).
Definition set_pendingGrants (m : gmap string nat) (w : World) : World :=
  mkWorld (now w) (tokens w) m (promises w) (fresh w) (trace w).
Definition set_promises (m : gmap nat Promise) (w : World) : World :=
  mkWorld (now w) (tokens w) (pendingGrants w) m (fresh w) (trace w).
Definition set_now (t : N) (w : World) : World :=
  mkWorld t (tokens w) (pendingGrants w) (promises w) (fresh w) (trace w).
Definition log (e : Event) (w : World) : World :=
  mkWorld (now w) (tokens w) (pendingGrants w) (promises w) (fresh w)
          (trace w ++ [e]).
(** A new heap object takes the next number. *)
Definition bump (w : World) : World :=
  mkWorld (now w) (tokens w) (pendingGrants w) (promises w) (S (fresh w))
          (trace w).
Definition alloc (p : Promise) (w : World) : World :=
  bump (set_promises (<[fresh w := p]> (promises w)) w).

(** [Promise.race] over promises of which some are settled already: the
    first settled one in the order of the array decides. *)
Fixpoint first_settled (pm : gmap nat Promise) (ps : list nat) : PState :=
  match ps with
  | [] => Pending
  | p :: rest =>
      match pm !! p with
      | Some (mkPromise _ (Settled r)) => Settled r
      | _ => first_settled pm rest
      end
  end.

(** A pending race over [p] settles as [p] does. *)
Definition race_follow (p : nat) (r : Result Token) (pr : Promise) : Promise :=
  match pr with
  | mkPromise (KRace ps) Pending =>
      if bool_decide (p ∈ ps) then mkPromise (KRace ps) (Settled r) else pr
  | _ => pr
  end.

(** A promise settles once; the races it takes part in follow. *)
Definition settle (p : nat) (r : Result Token) (w : World) : World :=
  match promises w !! p with
  | Some (mkPromise k Pending) =>
      set_promises
        (race_follow p r <$> <[p := mkPromise k (Settled r)]> (promises w)) w
  | _ => w
  end.

Definition run_callback (p : nat) (cb : Callback) (w : World) : World :=
  match cb with
  | CloseThenThrow s e => settle p (Err e) (log (EvServerClose s) w)
  end.

(** What happens outside the module while a call is suspended. *)
Inductive EnvEvent : Type :=
| Elapse (ms : N)
| GrantSettles (p : PromiseId) (r : Result Token)
| TimerFires (p : PromiseId).

(** A timer fires no earlier than its deadline, and once. *)
Definition env_step (w : World) (e : EnvEvent) : World :=
  match e with
  | Elapse ms => set_now (now w + ms)%N w
  | GrantSettles p r =>
      match promises w !! p with
      | Some (mkPromise (KGrant _) Pending) => settle p r w
      | _ => w
      end
  | TimerFires p =>
      match promises w !! p with
      | Some (mkPromise (KTimer deadline cb) Pending) =>
          if (deadline <=? now w)%N then run_callback p cb w else w
      | _ => w
      end
  end.

Definition env_steps (w : World) (es : list EnvEvent) : World :=
  foldl env_step w es.

(** *** Operations *)

(** The calls of the module, indexed by what each returns. [GetToken] and
    [SetToken] are [getToken] and [setToken] of ./grantStorage; the four
    last ones suspend the caller. *)
Inductive Op : Type → Type :=
| GetToken (connId : string) : Op (option Token)
| SetToken (connId : string) (t : Token) : Op unit
| PendingGet (key : string) : Op (option nat)
| PendingSet (key : string) (p : PromiseId) : Op unit
| PendingDelete (key : string) : Op unit
| LoginServer : Op nat
| CfCodeGrant (loginUrl clientId clientSecret : option string)
              (server : ServerId) : Op nat
| AfterThen (ms : N) (cb : Callback) : Op nat
| PromiseRace (ps : list PromiseId) : Op nat
| SetPassword (service account secret : string) : Op unit
| Await (p : PromiseId) : Op (Result Token)
| Yield : Op unit
| GetPassword (service account : string) : Op (Result (option string))
| Refresh (rq : RefreshRequest) : Op (Result Token).

(** Modelled from the spec: the TokenStore of ./grantStorage, "in-memory map
    from connection identifier to the last known valid token; exposes
    get/set"; and [after] of ../lib, a promise that a timer settles after
    the given number of milliseconds.

    The calls that return at once: the new world and the value returned. *)
Definition sync {X} (op : Op X) (w : World) : option (World * X) :=
  match op in Op X return option (World * X) with
  | GetToken connId => Some (w, tokens w !! connId)
  | SetToken connId t => Some (set_tokens (<[connId := t]> (tokens w)) w, tt)
  | PendingGet key => Some (w, pendingGrants w !! key)
  | PendingSet key p =>
      Some (set_pendingGrants (<[key := p]> (pendingGrants w)) w, tt)
  | PendingDelete key =>
      Some (set_pendingGrants (delete key (pendingGrants w)) w, tt)
  | LoginServer => Some (log (EvLoginServer (fresh w)) (bump w), fresh w)
  | CfCodeGrant url cid sec server =>
      Some (log (EvCfCodeGrant url cid sec server (fresh w))
                (alloc (mkPromise (KGrant server) Pending) w), fresh w)
  | AfterThen ms cb =>
      Some (log (EvAfter ms (fresh w))
                (alloc (mkPromise (KTimer (now w + ms) cb) Pending) w), fresh w)
  | PromiseRace ps =>
      Some (alloc (mkPromise (KRace ps) (first_settled (promises w) ps)) w,
            fresh w)
  | SetPassword service account secret =>
      Some (log (EvSetPassword service account secret) w, tt)
  | Await _ | Yield | GetPassword _ _ | Refresh _ => None
  end.

(** A suspending call is issued before the caller is suspended. *)
Definition issue {X} (op : Op X) (w : World) : World :=
  match op with
  | GetPassword service account => log (EvGetPassword service account) w
  | Refresh rq => log (EvRefresh rq) w
  | _ => w
  end.

(** What resumes a suspended call. *)
Inductive Response : Type :=
| RNone
| RSecret (r : Result (option string))
| RToken (r : Result Token).

(** The value a suspended call resumes with, when it can resume: an awaited
    promise has to be settled, a vault read and a refresh take the
    collaborator's answer. *)
Definition answer {X} (op : Op X) (resp : Response) (w : World) : option X :=
  match op in Op X return option X with
  | Await p =>
      match promises w !! p with
      | Some (mkPromise _ (Settled r)) => Some r
      | _ => None
      end
  | Yield => Some tt
  | GetPassword _ _ =>
      match resp with RSecret r => Some r | _ => None end
  | Refresh _ =>
      match resp with RToken r => Some r | _ => None end
  | _ => None
  end.

(** *** Programs *)

(** An async function: it returns, throws, or makes a call and goes on with
    what the call returns. *)
Inductive Prog (A : Type) : Type :=
| Ret (a : A)
| Throw (e : Error)
| Vis {X : Type} (op : Op X) (k : X → Prog A).
Arguments Ret {A} a.
Arguments Throw {A} e.
Arguments Vis {A X} op k.

Fixpoint bind {A B} (p : Prog A) (f : A → Prog B) : Prog B :=
  match p with
  | Ret a => f a
  | Throw e => Throw e
  | Vis op k => Vis op (λ x, bind (k x) f)
  end.

#[global] Instance prog_ret : MRet Prog := @Ret.
#[global] Instance prog_bind : MBind Prog := λ A B f p, bind p f.

(** [try { p } catch (error) { h error }] *)
Fixpoint try_catch {A} (p : Prog A) (h : Error → Prog A) : Prog A :=
  match p with
  | Ret a => Ret a
  | Throw e => h e
  | Vis op k => Vis op (λ x, try_catch (k x) h)
  end.

Definition call {X} (op : Op X) : Prog X := Vis op Ret.

(** A result, returned or thrown. *)
Definition liftR {A} (r : Result A) : Prog A :=
  match r with
  | Ok a => Ret a
  | Err e => Throw e
  end.

(** [await] of a call whose promise may reject. *)
Definition await {A} (op : Op (Result A)) : Prog A := Vis op liftR.

(** A call whose promise nobody observes. *)
Definition forget (p : Prog unit) : Prog unit := try_catch p (λ _, Ret tt).

(** ** The module *)

(** [new Error("User logon timed out")] *)
Definition timeoutError : Error := mkError "User logon timed out".

Section Module.
Context `{Runtime}.

(** [futureToken]. Returning [pending.then(t => t.accessToken)] from an
    async function resolves the call as that promise does. *)
Definition futureToken (connId : string) : Prog JValue :=
  oldGrant ← call (GetToken connId);
  match oldGrant with
  | Some g => Ret (accessToken g)
  | None =>
      pending ← call (PendingGet connId);
      match pending with
      | Some p => t ← await (Await p); Ret (accessToken t)
      | None => Ret JUndefined
      end
  end.

(** [toVault] *)
Definition toVault (conf : RemoteConfig) (token : Token) : Prog unit :=
  let serialized := serializeToken (strip token) in
  let '(clientId, clientSecret, loginUrl) := oauthFields conf in
  if negb (truthyS clientId && truthyS clientSecret && truthyS loginUrl)
  then Ret tt
  else call (SetPassword (vaultId (name conf)) (str clientId) serialized).

(** [new ClientOAuth2({...}).createToken(td.accessToken, td.refreshToken,
    td.tokenType, {})], the token [fromVault] asks to refresh. *)
Definition refreshRequest (clientId clientSecret loginUrl : option string)
    (td : Token) : RefreshRequest :=
  {| authorizationUri := str loginUrl +:+ "/oauth/authorize";
     accessTokenUri := str loginUrl +:+ "/oauth/token";
     redirectUri := "http://localhost/notfound";
     rq_clientId := str clientId;
     rq_clientSecret := str clientSecret;
     rq_accessToken := accessToken td;
     rq_refreshToken := refreshToken td;
     rq_tokenType := tokenType td |}.

(** [fromVault]; [None] is fp-ts's [none]. *)
Definition fromVault (conf : RemoteConfig) : Prog (option Token) :=
  let '(clientId, clientSecret, loginUrl) := oauthFields conf in
  if negb (truthyS clientId && truthyS clientSecret && truthyS loginUrl)
  then Ret None
  else
    try_catch
      (tp ← await (GetPassword (vaultId (name conf)) (str clientId));
       td ← liftR (if truthyS tp then deserializeToken tp else Ok None);
       match td with
       | None => Ret None
       | Some td =>
           token ← await
             (Refresh (refreshRequest clientId clientSecret loginUrl td));
           Ret (Some (strip token))
       end)
      (λ _, Ret None).

(** The end of the login operation ([oauthLogin], from
    [if (result) setToken(connId, result)] on). A settled grant is a
    [Token], so [if (result)] holds. *)
Definition completeGrant (conf : RemoteConfig) (o : OAuthConfig)
    (connId : string) (result : Token) : Prog JValue :=
  call (SetToken connId result);;
  call (PendingDelete (formatKey connId));;
  (if saveCredentials o then forget (toVault conf result) else Ret tt);;
  Ret (accessToken result).

(** The interactive grant of the login operation ([oauthLogin], from
    [const server = loginServer()] on). *)
Definition interactiveGrant (conf : RemoteConfig) (o : OAuthConfig)
    (connId : string) : Prog JValue :=
  server ← call LoginServer;
  grant ← call (CfCodeGrant (loginUrl o) (clientId o) (clientSecret o) server);
  timeout ← call (AfterThen 60000 (CloseThenThrow server timeoutError));
  pendingGrant ← call (PromiseRace [grant; timeout]);
  call (PendingSet (formatKey connId) pendingGrant);;
  result ← await (Await pendingGrant);
  completeGrant conf o connId result.

(** The login operation [oauthLogin] returns. *)
Definition login (conf : RemoteConfig) (o : OAuthConfig) : Prog JValue :=
  let connId := formatKey (name conf) in
  oldGrant ← call (GetToken connId);
  oldGrant ← (if saveCredentials o && negb (bool_decide (is_Some oldGrant))
              then v ← fromVault conf; call Yield;; Ret v
              else Ret oldGrant);
  match oldGrant with
  | Some g => Ret (accessToken g)
  | None => interactiveGrant conf o connId
  end.

(** [oauthLogin]: [None] where it returns [undefined]. *)
Definition oauthLogin (conf : RemoteConfig) : option (Prog JValue) :=
  match oauth conf with
  | None => None
  | Some o => Some (login conf o)
  end.

End Module.

(** ** Running programs *)

(** The collaborators of a call: what the vault and the OAuth provider
    answer, and what happens outside while the call awaits a promise. *)
Record Env := mkEnv {
  env_getPassword : string → string → Result (option string);
  env_refresh : RefreshRequest → Result Token;
  env_while_awaiting : PromiseId → list EnvEvent
}.

(** A suspending call resumes with the collaborator's answer; an awaited
    promise has to be settled by then. *)
Definition oracle (env : Env) {X} (op : Op X) (w : World) : World * option X :=
  match op in Op X return World * option X with
  | Await p =>
      let w' := env_steps w (env_while_awaiting env p) in
      (w', answer (Await p) RNone w')
  | Yield => (w, answer Yield RNone w)
  | GetPassword service account =>
      (w, answer (GetPassword service account)
                 (RSecret (env_getPassword env service account)) w)
  | Refresh rq => (w, answer (Refresh rq) (RToken (env_refresh env rq)) w)
  | _ => (w, None)
  end.

Definition handle (env : Env) {X} (op : Op X) (w : World)
  : World * option X :=
  match sync op w with
  | Some (w', x) => (w', Some x)
  | None => oracle env op (issue op w)
  end.

(** How a call stands when control leaves it: it returned, it threw, or it
    is suspended on a promise that is still pending, with the rest of the
    call to resume later. *)
Inductive Outcome (A : Type) : Type :=
| Returned (a : A)
| Thrown (e : Error)
| Blocked (rest : Prog A).
Arguments Returned {A} a.
Arguments Thrown {A} e.
Arguments Blocked {A} rest.

(** A call, from its start or from where it was suspended, up to its end or
    its next wait on a pending promise. Calls interleave at these waits:
    the event loop is single-threaded and cooperative. *)
Fixpoint interp {A} (env : Env) (p : Prog A) (w : World)
  : World * Outcome A :=
  match p with
  | Ret a => (w, Returned a)
  | Throw e => (w, Thrown e)
  | Vis op k =>
      match handle env op w with
      | (w', Some x) => interp env (k x) w'
      | (w', None) => (w', Blocked p)
      end
  end.

Definition is_close (s : ServerId) (e : Event) : bool :=
  match e with
  | EvServerClose s' => s' =? s
  | _ => false
  end.

(** How often [server.server.close()] was called on a server. *)
Definition closeCalls (s : ServerId) (evs : list Event) : nat :=
  length (List.filter (is_close s) evs).

Definition is_grant (e : Event) : bool :=
  match e with
  | EvCfCodeGrant _ _ _ _ _ => true
  | _ => false
  end.

(** How many code-grant exchanges were started. *)
Definition grantsStarted (evs : list Event) : nat :=
  length (List.filter is_grant evs).

(** ** An instance of the runtime

    Keys in lower case, and a JSON reader and writer for the fragment vault
    records are written in: objects, arrays, strings, [null], [true] and
    [false]. The statements below hold for every runtime; this one runs
    them on concrete records. *)
Module Sample.

Definition lower (c : ascii) : ascii :=
  let n := nat_of_ascii c in
  if (65 <=? n) && (n <=? 90) then ascii_of_nat (n + 32) else c.

Fixpoint toLowerCase (s : string) : string :=
  match s with
  | EmptyString => EmptyString
  | String c rest => String (lower c) (toLowerCase rest)
  end.

Definition quote : ascii := ascii_of_nat 34.
Definition backslash : ascii := ascii_of_nat 92.

Fixpoint escape (s : string) : string :=
  match s with
  | EmptyString => EmptyString
  | String c rest =>
      if Ascii.eqb c quote || Ascii.eqb c backslash
      then String backslash (String c (escape rest))
      else String c (escape rest)
  end.

Definition quoted (s : string) : string :=
  String quote (escape s +:+ String quote EmptyString).

Definition join (parts : list string) : string :=
  match parts with
  | [] => EmptyString
  | first :: rest => foldl (λ acc part, acc +:+ "," +:+ part) first rest
  end.

(** A property whose value is [undefined] is left out; a number is outside
    the fragment. *)
Fixpoint stringify (v : JValue) : string :=
  match v with
  | JUndefined | JNull | JNum _ => "null"
  | JBool true => "true"
  | JBool false => "false"
  | JStr s => quoted s
  | JArr items => "[" +:+ join (map stringify items) +:+ "]"
  | JObj fields =>
      "{" +:+ join ((fix members (fs : list (string * JValue)) :=
                       match fs with
                       | [] => []
                       | (_, JUndefined) :: rest => members rest
                       | (k, x) :: rest =>
                           (quoted k +:+ ":" +:+ stringify x) :: members rest
                       end) fields) +:+ "}"
  end.

Definition is_space (c : ascii) : bool :=
  Ascii.eqb c " " || Ascii.eqb c (ascii_of_nat 9)
  || Ascii.eqb c (ascii_of_nat 10) || Ascii.eqb c (ascii_of_nat 13).

Fixpoint skip_space (s : string) : string :=
  match s with
  | String c rest => if is_space c then skip_space rest else s
  | EmptyString => s
  end.

Definition unescape (c : ascii) : option ascii :=
  if Ascii.eqb c quote || Ascii.eqb c backslash || Ascii.eqb c "/" then Some c
  else if Ascii.eqb c "n" then Some (ascii_of_nat 10)
  else if Ascii.eqb c "t" then Some (ascii_of_nat 9)
  else if Ascii.eqb c "r" then Some (ascii_of_nat 13)
  else if Ascii.eqb c "b" then Some (ascii_of_nat 8)
  else if Ascii.eqb c "f" then Some (ascii_of_nat 12)
  else None.

(** The text after an opening quote: the string and what follows its
    closing quote. *)
Fixpoint read_string (s : string) : option (string * string) :=
  match s with
  | EmptyString => None
  | String c rest =>
      if Ascii.eqb c quote then Some (EmptyString, rest)
      else if Ascii.eqb c backslash then
        match rest with
        | String e rest' =>
            match unescape e, read_string rest' with
            | Some ch, Some (body, tl) => Some (String ch body, tl)
            | _, _ => None
            end
        | EmptyString => None
        end
      else
        match read_string rest with
        | Some (body, tl) => Some (String c body, tl)
        | None => None
        end
  end.

(** A later member of the same name wins, as in [JSON.parse]. *)
Fixpoint set_field (k : string) (v : JValue) (fs : list (string * JValue))
  : list (string * JValue) :=
  match fs with
  | [] => [(k, v)]
  | (k', v') :: rest =>
      if String.eqb k k' then (k, v) :: rest else (k', v') :: set_field k v rest
  end.

(** [s] without its prefix [p]. *)
Fixpoint strip_prefix (p s : string) : option string :=
  match p, s with
  | EmptyString, _ => Some s
  | String a p', String b s' =>
      if Ascii.eqb a b then strip_prefix p' s' else None
  | String _ _, EmptyString => None
  end.

Definition read_literal (s : string) : option (JValue * string) :=
  match strip_prefix "null" s, strip_prefix "true" s, strip_prefix "false" s with
  | Some tl, _, _ => Some (JNull, tl)
  | _, Some tl, _ => Some (JBool true, tl)
  | _, _, Some tl => Some (JBool false, tl)
  | _, _, _ => None
  end.

(** Whether the text, spaces skipped, starts with [c]. *)
Definition next_is (c : ascii) (s : string) : option string :=
  match skip_space s with
  | String c' tl => if Ascii.eqb c' c then Some tl else None
  | EmptyString => None
  end.

Fixpoint read_value (fuel : nat) (s : string) : option (JValue * string) :=
  match fuel with
  | 0 => None
  | S fuel =>
      match skip_space s with
      | String c rest =>
          if Ascii.eqb c quote then
            match read_string rest with
            | Some (body, tl) => Some (JStr body, tl)
            | None => None
            end
          else if Ascii.eqb c "[" then
            match next_is "]" rest with
            | Some tl => Some (JArr [], tl)
            | None => read_items fuel [] rest
            end
          else if Ascii.eqb c "{" then
            match next_is "}" rest with
            | Some tl => Some (JObj [], tl)
            | None => read_members fuel [] rest
            end
          else read_literal (String c rest)
      | EmptyString => None
      end
  end
with read_items (fuel : nat) (acc : list JValue) (s : string)
  : option (JValue * string) :=
  match fuel with
  | 0 => None
  | S fuel =>
      match read_value fuel s with
      | Some (v, tl) =>
          match next_is "," tl, next_is "]" tl with
          | Some tl', _ => read_items fuel (acc ++ [v]) tl'
          | None, Some tl' => Some (JArr (acc ++ [v]), tl')
          | None, None => None
          end
      | None => None
      end
  end
with read_members (fuel : nat) (acc : list (string * JValue)) (s : string)
  : option (JValue * string) :=
  match fuel with
  | 0 => None
  | S fuel =>
      match next_is quote s with
      | Some rest =>
          match read_string rest with
          | Some (k, tl) =>
              match next_is ":" tl with
              | Some tl' =>
                  match read_value fuel tl' with
                  | Some (v, tl'') =>
                      match next_is "," tl'', next_is "}" tl'' with
                      | Some more, _ =>
                          read_members fuel (set_field k v acc) more
                      | None, Some more =>
                          Some (JObj (set_field k v acc), more)
                      | None, None => None
                      end
                  | None => None
                  end
              | None => None
              end
          | None => None
          end
      | None => None
      end
  end.

Definition parse (s : string) : Result JValue :=
  match read_value (S (String.length s)) s with
  | Some (v, tl) =>
      match skip_space tl with
      | EmptyString => Ok v
      | _ => Err (mkError "SyntaxError")
      end
  | None => Err (mkError "SyntaxError")
  end.

Definition runtime : Runtime :=
  {| formatKey := toLowerCase; JSON_parse := parse; JSON_stringify := stringify |}.

(** Configurations, tokens, worlds and environments to run the module
    on. *)
Definition o_plain : OAuthConfig :=
  mkOAuth (Some "c1") (Some "s1") (Some "https://host") false.
Definition o_saving : OAuthConfig :=
  mkOAuth (Some "c1") (Some "s1") (Some "https://host") true.
(** An [oauth] object without clientSecret and with an empty loginUrl. *)
Definition o_partial : OAuthConfig :=
  mkOAuth (Some "c1") None (Some "") true.

Definition conf_plain : RemoteConfig := mkConfig "MyConn" (Some o_plain).
Definition conf_saving : RemoteConfig := mkConfig "MyConn" (Some o_saving).
Definition conf_partial : RemoteConfig := mkConfig "MyConn" (Some o_partial).

Definition token1 : Token :=
  mkToken (JStr "a1") (JStr "r1") (JStr "bearer") [("scope", JStr "abap")].
Definition token2 : Token :=
  mkToken (JStr "a2") (JStr "r2") (JStr "bearer") [("scope", JStr "abap")].

(** A vault record whose refreshToken is empty. *)
Definition record_without_refresh : string :=
  stringify (JObj [("accessToken", JStr "a1"); ("refreshToken", JStr "");
                   ("tokenType", JStr "bearer")]).

Definition world0 : World := mkWorld 0 ∅ ∅ ∅ 0 [].
Definition world_with_token : World :=
  mkWorld 0 {["myconn" := token1]} ∅ ∅ 0 [].

(** An empty vault, and nothing settles. *)
Definition quiet : Env :=
  mkEnv (λ _ _, Ok None) (λ _, Err (mkError "unreachable")) (λ _, []).
(** The grants 1 and 5, of the races 3 and 7, resolve after a second. *)
Definition grants_resolve : Env :=
  mkEnv (λ _ _, Ok None) (λ _, Err (mkError "unreachable"))
        (λ p, if p =? 3 then [Elapse 1000; GrantSettles 1 (Ok token1)]
              else if p =? 7 then [Elapse 1000; GrantSettles 5 (Ok token2)]
              else []).
Definition grant_rejects : Env :=
  mkEnv (λ _ _, Ok None) (λ _, Err (mkError "unreachable"))
        (λ _, [Elapse 1000; GrantSettles 1 (Err (mkError "invalid_client"))]).
Definition timer_fires : Env :=
  mkEnv (λ _ _, Ok None) (λ _, Err (mkError "unreachable"))
        (λ _, [Elapse 60000; TimerFires 2]).
(** The vault holds the stripped [token1]; the provider answers a refresh
    with [token2]. *)
Definition vault_holds_token : Env :=
  mkEnv (λ _ _, Ok (Some (stringify (objectOfToken (strip token1)))))
        (λ _, Ok token2) (λ _, []).
(** The vault holds a record that does not parse. *)
Definition vault_corrupt : Env :=
  mkEnv (λ _ _, Ok (Some "{")) (λ _, Ok token2) (λ _, []).

(** The timer is tried after 30 seconds, before its deadline. *)
Definition timer_early : Env :=
  mkEnv (λ _ _, Ok None) (λ _, Err (mkError "unreachable"))
        (λ _, [Elapse 30000; TimerFires 2]).

End Sample.

(** ** Vocabulary of the statements *)

(** Whether [clientId && clientSecret && loginUrl] holds, the guard of
    [toVault] and [fromVault]. *)
Definition vaultConfigured (conf : RemoteConfig) : bool :=
  let '(clientId, clientSecret, loginUrl) := oauthFields conf in
  truthyS clientId && truthyS clientSecret && truthyS loginUrl.

(** A field of a record that is missing, or present and empty. *)
Definition missingOrEmpty (v : JValue) : Prop := v = JUndefined ∨ v = JStr "".

(** The runtime reads back what it writes for the value [v]: the text
    [JSON.stringify] gives for [v] is not empty, and [JSON.parse] of it
    is [v]. *)
Definition jsonRoundTrip `{Runtime} (v : JValue) : Prop :=
  JSON_stringify v ≠ "" ∧ JSON_parse (JSON_stringify v) = Ok v.

(** The login operation, started in [w], gets no token from the vault and
    is in [w1] when it turns to the interactive grant: either
    [saveCredentials] is unset, or [fromVault] returned [none]. *)
Definition vaultMiss `{Runtime} (env : Env) (conf : RemoteConfig)
    (o : OAuthConfig) (w w1 : World) : Prop :=
  if saveCredentials o
  then interp env (fromVault conf) w = (w1, Returned None)
  else w1 = w.

(** [fromVault] fails: the vault read throws or finds nothing, the record
    does not parse or lacks a field, or the refresh exchange fails. *)
Definition vaultLoadFails `{Runtime} (env : Env) (conf : RemoteConfig)
    (o : OAuthConfig) : Prop :=
  match env_getPassword env (vaultId (name conf)) (str (clientId o)) with
  | Err _ => True
  | Ok tp =>
      truthyS tp = false ∨
      match deserializeToken tp with
      | Err _ | Ok None => True
      | Ok (Some td) =>
          ∃ e, env_refresh env
                 (refreshRequest (clientId o) (clientSecret o) (loginUrl o) td)
               = Err e
      end
  end.

(** The world once the login operation, having found no token in [w], has
    built its login server [fresh w], started the grant, the timeout and
    their race, and registered the race under [key]. *)
Definition grantWorld (o : OAuthConfig) (key : string) (w : World) : World :=
  let s := fresh w in
  let g := S s in
  let t := S g in
  let r := S t in
  mkWorld (now w) (tokens w) (<[key := r]> (pendingGrants w))
    (<[r := mkPromise (KRace [g; t]) Pending]>
       (<[t := mkPromise (KTimer (now w + 60000) (CloseThenThrow s timeoutError))
                         Pending]>
          (<[g := mkPromise (KGrant s) Pending]> (promises w))))
    (S r)
    (trace w ++ [EvLoginServer s;
                 EvCfCodeGrant (loginUrl o) (clientId o) (clientSecret o) s g;
                 EvAfter 60000 t]).

(** The world once the login operation has dealt with its settled grant:
    the token stored under the connection id, the registry entry deleted,
    and, when [saveCredentials] is set and the vault configured, the
    stripped token written to the vault. *)
Definition storeGrant `{Runtime} (conf : RemoteConfig) (o : OAuthConfig)
    (connId : string) (tk : Token) (w : World) : World :=
  let w1 := set_pendingGrants (delete (formatKey connId) (pendingGrants w))
              (set_tokens (<[connId := tk]> (tokens w)) w) in
  if saveCredentials o && vaultConfigured conf
  then log (EvSetPassword (vaultId (name conf)) (str (clientId o))
              (serializeToken (strip tk))) w1
  else w1.

(** Events that are all calls of [close] on a login server. *)
Definition closesOnly (evs : list Event) : Prop :=
  Forall (λ e, ∃ s, e = EvServerClose s) evs.

(** The login operation suspended on the race [r] it registered: what is
    left of it to run once the race has settled. *)
Definition suspendedLogin `{Runtime} (conf : RemoteConfig) (o : OAuthConfig)
    (r : PromiseId) : Prog JValue :=
  bind (await (Await r)) (completeGrant conf o (formatKey (name conf))).

Definition is_vault_call (e : Event) : bool :=
  match e with
  | EvGetPassword _ _ | EvSetPassword _ _ _ | EvRefresh _ => true
  | _ => false
  end.

(** How many calls went to the vault or to the refresh exchange. *)
Definition vaultCalls (evs : list Event) : nat :=
  length (List.filter is_vault_call evs).

(** The calls that open an interactive grant on the server [s]: the login
    server, the grant [S s] and the timer [S (S s)]. *)
Definition grantCalls (o : OAuthConfig) (s : ServerId) : list Event :=
  [EvLoginServer s;
   EvCfCodeGrant (loginUrl o) (clientId o) (clientSecret o) s (S s);
   EvAfter 60000 (S (S s))].

(** ** The abapGit source controls

    The pure part of the abapGit SCM module: [scmKey] and [findSc]. The
    module state [scms] is a [Map<string, ScmData>], whose values are
    listed in insertion order. *)
Module Scm.

(** [GitRepo] of abap-adt-api, with the fields the module reads. *)
Record GitRepo := mkRepo {
  key : string;
  sapPackage : string;
  branch_name : string
}.

Record Credentials := mkCredentials {
  user : option string;
  password : option string
}.

(** [ScmData]. A [SourceControl] is a heap object, named by a number and
    compared by identity; the cache of resource groups is not read by the
    functions embedded here. *)
Record ScmData := mkScmData {
  scm : nat;
  connId : string;
  repo : GitRepo;
  loaded : bool;
  credentials : option Credentials
}.

(** [scms], as the list of its entries in insertion order. *)
Definition Scms : Type := list (string * ScmData).

(** [[...scms.values()]] *)
Definition values (scms : Scms) : list ScmData := map snd scms.

(** [scmKey] *)
Definition scmKey (connId repoKey : string) : string :=
  "abapGit_" +:+ connId +:+ "_" +:+ repoKey.

(** [findSc]; [sc] is [None] where the command is run without a source
    control, [None] as a result is fp-ts's [none]. *)
Definition findSc (scms : Scms) (sc : option nat) : option ScmData :=
  let candidates := values scms in
  match sc with
  | Some sc => List.find (λ s, scm s =? sc) candidates
  | None => head candidates
  end.

(** Whether a string has an underscore, the separator of [scmKey]. *)
Fixpoint has_underscore (s : string) : bool :=
  match s with
  | EmptyString => false
  | String c rest => Ascii.eqb c "_" || has_underscore rest
  end.

End Scm.

(** ** The object factory

    [fromObjectNode] of abap/AbapObjectFactory.ts. The classes it chooses
    from are not part of the sources at hand: the result is the class
    chosen and the arguments its constructor is called with. *)
Module Factory.

(** [ObjectNode] of ../adt/AdtNodeStructParser, with the fields read. *)
Record ObjectNode := mkNode {
  OBJECT_TYPE : string;
  OBJECT_NAME : string;
  OBJECT_URI : string
}.

Inductive AbapClass : Type :=
| AbapObject
| AbapPackage
| AbapFunctionGroup
| AbapSimpleObjectXml.

(** [new objtype(type, name, uri)] *)
Record Construction := mkNew {
  objtype : AbapClass;
  arguments : string * string * string
}.

(** [fromObjectNode]: the [switch] on [node.OBJECT_TYPE] chooses the
    class, [AbapObject] unless a [case] matches. *)
Definition fromObjectNode (node : ObjectNode) : Construction :=
  let type := OBJECT_TYPE node in
  let objtype :=
    if String.eqb type "DEVC/K" then AbapPackage
    else if String.eqb type "FUGR/F" then AbapFunctionGroup
    else if String.eqb type "TABL/DT" || String.eqb type "DOMA/DD"
            || String.eqb type "DTEL/DE" || String.eqb type "TTYP/DA"
    then AbapSimpleObjectXml
    else AbapObject in
  mkNew objtype (OBJECT_TYPE node, OBJECT_NAME node, OBJECT_URI node).

End Factory.

(** ** Facts about running programs *)

(** Call by value: a world is built once, then read. *)
Ltac world_unfold :=
  cbv [set_tokens set_pendingGrants set_promises set_now log alloc bump
       now tokens pendingGrants promises fresh trace first_settled].

Ltac prog_unfold :=
  unfold mbind, prog_bind, call, await, forget in *.

Lemma interp_bind {A B} env (p : Prog A) (f : A → Prog B) w :
  interp env (bind p f) w =
  match interp env p w with
  | (w', Returned a) => interp env (f a) w'
  | (w', Thrown e) => (w', Thrown e)
  | (w', Blocked rest) => (w', Blocked (bind rest f))
  end.
Proof.
  revert w. induction p as [a|e|X op k IH]; intros w; cbn; try reflexivity.
  destruct (handle env op w) as [w' [x|]]; [apply IH | reflexivity].
Qed.

Lemma interp_try_catch {A} env (p : Prog A) (h : Error → Prog A) w :
  interp env (try_catch p h) w =
  match interp env p w with
  | (w', Returned a) => (w', Returned a)
  | (w', Thrown e) => interp env (h e) w'
  | (w', Blocked rest) => (w', Blocked (try_catch rest h))
  end.
Proof.
  revert w. induction p as [a|e|X op k IH]; intros w; cbn; try reflexivity.
  destruct (handle env op w) as [w' [x|]]; [apply IH | reflexivity].
Qed.

Lemma interp_sync {A X} env (op : Op X) (k : X → Prog A) w w' x :
  sync op w = Some (w', x) → interp env (Vis op k) w = interp env (k x) w'.
Proof. intros Hs. cbn. unfold handle. rewrite Hs. reflexivity. Qed.

Lemma interp_await {A} env p (k : Token → Prog A) w :
  interp env (bind (await (Await p)) k) w =
  let w' := env_steps w (env_while_awaiting env p) in
  match promises w' !! p with
  | Some (mkPromise _ (Settled (Ok t))) => interp env (k t) w'
  | Some (mkPromise _ (Settled (Err e))) => (w', Thrown e)
  | _ => (w', Blocked (bind (await (Await p)) k))
  end.
Proof.
  cbn. unfold handle. cbn.
  destruct (promises _ !! p) as [[kind [|[t|e]]]|]; reflexivity.
Qed.

Section Facts.
Context `{Runtime}.

Lemma fromVault_unconfigured conf env w :
  vaultConfigured conf = false →
  interp env (fromVault conf) w = (w, Returned None).
Proof.
  unfold vaultConfigured, fromVault.
  destruct (oauthFields conf) as [[cid sec] url]. intros ->. reflexivity.
Qed.

Lemma toVault_unconfigured conf env t w :
  vaultConfigured conf = false →
  interp env (toVault conf t) w = (w, Returned tt).
Proof.
  unfold vaultConfigured, toVault.
  destruct (oauthFields conf) as [[cid sec] url]. intros ->. reflexivity.
Qed.

Lemma vaultConfigured_oauth conf :
  vaultConfigured conf = true → ∃ o, oauth conf = Some o.
Proof.
  unfold vaultConfigured, oauthFields.
  destruct (oauth conf) as [o|]; [eauto | discriminate].
Qed.

(** [fromVault], step by step. *)
Lemma fromVault_configured conf o env w :
  oauth conf = Some o →
  vaultConfigured conf = true →
  interp env (fromVault conf) w =
  let service := vaultId (name conf) in
  let account := str (clientId o) in
  let w1 := log (EvGetPassword service account) w in
  match env_getPassword env service account with
  | Err _ => (w1, Returned None)
  | Ok tp =>
      match (if truthyS tp then deserializeToken tp else Ok None) with
      | Err _ | Ok None => (w1, Returned None)
      | Ok (Some td) =>
          let rq :=
            refreshRequest (clientId o) (clientSecret o) (loginUrl o) td in
          match env_refresh env rq with
          | Err _ => (log (EvRefresh rq) w1, Returned None)
          | Ok token => (log (EvRefresh rq) w1, Returned (Some (strip token)))
          end
      end
  end.
Proof.
  unfold vaultConfigured, fromVault, oauthFields. intros -> ->. cbn.
  destruct (env_getPassword env _ _) as [tp|e]; cbn; [|reflexivity].
  destruct (if truthyS tp then deserializeToken tp else Ok None)
    as [[td|]|e]; cbn; try reflexivity.
  destruct (env_refresh env _) as [token|e]; reflexivity.
Qed.

(** [fromVault] returns, and touches nothing but the trace, where it
    starts no grant. *)
Lemma fromVault_frame conf env w :
  ∃ w' r evs,
    interp env (fromVault conf) w = (w', Returned r)
    ∧ w' = mkWorld (now w) (tokens w) (pendingGrants w) (promises w)
                   (fresh w) (trace w ++ evs)
    ∧ grantsStarted evs = 0.
Proof.
  destruct (vaultConfigured conf) eqn:Hc.
  - destruct (vaultConfigured_oauth conf Hc) as [o Ho].
    rewrite (fromVault_configured conf o env w Ho Hc). cbn.
    destruct (env_getPassword env _ _) as [tp|e];
      [|eexists _, _, [_]; repeat split; reflexivity].
    destruct (if truthyS tp then deserializeToken tp else Ok None)
      as [[td|]|e]; try (eexists _, _, [_]; repeat split; reflexivity).
    destruct (env_refresh env _) as [token|e];
      (eexists _, _, [_; _]; split; [reflexivity|];
       split; [unfold log; cbn; rewrite <- app_assoc|]; reflexivity).
  - rewrite fromVault_unconfigured by done.
    eexists _, _, []. split; [reflexivity|]. split; [|reflexivity].
    rewrite app_nil_r. by destruct w.
Qed.

Lemma vaultMiss_frame conf o env w w1 :
  vaultMiss env conf o w w1 →
  ∃ evs, w1 = mkWorld (now w) (tokens w) (pendingGrants w) (promises w)
                      (fresh w) (trace w ++ evs)
         ∧ grantsStarted evs = 0.
Proof.
  unfold vaultMiss. destruct (saveCredentials o).
  - destruct (fromVault_frame conf env w) as (w' & r & evs & -> & -> & Hg).
    intros [= <- _]. eauto.
  - intros ->. exists []. split; [|reflexivity].
    rewrite app_nil_r. by destruct w.
Qed.

(** A record that parses to the object of a token with truthy fields is
    deserialized to the stripped token. *)
Lemma deserialize_parsed_record (s : string) (t : Token) :
  s ≠ "" →
  JSON_parse s = Ok (objectOfToken t) →
  truthy (accessToken t) = true →
  truthy (refreshToken t) = true →
  truthy (tokenType t) = true →
  deserializeToken (Some s) = Ok (Some (strip t)).
Proof.
  intros Hne Hparse Ha Hr Ht.
  unfold deserializeToken, parseIfAny. cbn [truthyS].
  destruct (String.eqb_spec s "") as [|_]; [done|].
  cbn [negb]. rewrite Hparse. cbn. rewrite Ha, Hr, Ht. reflexivity.
Qed.

(** [futureToken], step by step. *)
Lemma futureToken_interp env c w :
  interp env (futureToken c) w =
  match tokens w !! c with
  | Some g => (w, Returned (accessToken g))
  | None =>
      match pendingGrants w !! c with
      | Some p =>
          interp env (bind (await (Await p)) (λ t, Ret (accessToken t))) w
      | None => (w, Returned JUndefined)
      end
  end.
Proof.
  unfold futureToken. prog_unfold. cbn [bind].
  erewrite interp_sync by reflexivity.
  destruct (tokens w !! c); [reflexivity|].
  erewrite interp_sync by reflexivity.
  destruct (pendingGrants w !! c); reflexivity.
Qed.

(** With no token in the TokenStore and none from the vault, the login
    operation goes on to the interactive grant. *)
Lemma login_falls_through conf o env w w1 :
  tokens w !! formatKey (name conf) = None →
  vaultMiss env conf o w w1 →
  interp env (login conf o) w =
  interp env (interactiveGrant conf o (formatKey (name conf))) w1.
Proof.
  intros Ht Hm. unfold login, vaultMiss in *. prog_unfold. cbn [bind].
  erewrite interp_sync by reflexivity. cbn [tokens]. rewrite Ht.
  rewrite interp_bind. cbn [is_Some].
  destruct (saveCredentials o); cbn.
  - rewrite interp_bind, Hm. reflexivity.
  - subst w1. reflexivity.
Qed.

(** The interactive grant up to its wait for the race. *)
Lemma interactiveGrant_registers conf o c env w :
  interp env (interactiveGrant conf o c) w =
  interp env (bind (await (Await (S (S (S (fresh w))))))
                   (completeGrant conf o c))
         (grantWorld o (formatKey c) w).
Proof.
  unfold interactiveGrant. prog_unfold. cbn [bind].
  do 5 (erewrite interp_sync by reflexivity).
  match goal with
  | |- interp _ _ ?W = _ => assert (W = grantWorld o (formatKey c) w) as ->
  end; [|reflexivity].
  destruct w as [nw tk pg pm fr tr]. unfold grantWorld. world_unfold.
  rewrite lookup_insert_ne by lia. rewrite !lookup_insert_eq.
  rewrite <- !app_assoc. reflexivity.
Qed.

(** What the login operation does with a settled grant. *)
Lemma completeGrant_interp conf o c tk env w :
  oauth conf = Some o →
  interp env (completeGrant conf o c tk) w =
  (storeGrant conf o c tk w, Returned (accessToken tk)).
Proof.
  intros Ho.
  unfold completeGrant, storeGrant, vaultConfigured, toVault, oauthFields.
  rewrite Ho. prog_unfold. cbn [bind].
  do 2 (erewrite interp_sync by reflexivity).
  rewrite interp_bind.
  destruct (saveCredentials o); cbn [andb]; [|reflexivity].
  rewrite interp_try_catch.
  destruct (truthyS (clientId o) && truthyS (clientSecret o)
            && truthyS (loginUrl o)); reflexivity.
Qed.

Lemma storeGrant_facts conf o c tk w :
  let w' := storeGrant conf o c tk w in
  promises w' = promises w
  ∧ now w' = now w
  ∧ tokens w' = <[c := tk]> (tokens w)
  ∧ pendingGrants w' = delete (formatKey c) (pendingGrants w)
  ∧ ∀ s, closeCalls s (trace w') = closeCalls s (trace w).
Proof.
  unfold storeGrant.
  destruct (saveCredentials o && vaultConfigured conf);
    repeat split; try reflexivity.
  intros s.
  change (closeCalls s (trace w ++ [EvSetPassword (vaultId (name conf))
            (str (clientId o)) (serializeToken (strip tk))])
          = closeCalls s (trace w)).
  unfold closeCalls. rewrite List.filter_app, length_app. cbn. lia.
Qed.

(** The grant settles first: the race follows it, the timer stays armed. *)
Lemma grantWorld_grant_settles o key w dt x :
  let s := fresh w in
  let w2 := env_steps (grantWorld o key w) [Elapse dt; GrantSettles (S s) x] in
  promises w2 !! S (S (S s))
    = Some (mkPromise (KRace [S s; S (S s)]) (Settled x))
  ∧ promises w2 !! S (S s)
    = Some (mkPromise (KTimer (now w + 60000) (CloseThenThrow s timeoutError))
                      Pending)
  ∧ now w2 = (now w + dt)%N
  ∧ tokens w2 = tokens w
  ∧ pendingGrants w2 = <[key := S (S (S s))]> (pendingGrants w)
  ∧ trace w2 = trace (grantWorld o key w).
Proof.
  destruct w as [nw tk pg pm fr tr]. unfold grantWorld, env_steps, settle.
  cbn. rewrite lookup_insert_ne by lia. rewrite lookup_insert_ne by lia.
  rewrite lookup_insert_eq. unfold settle. cbn.
  rewrite lookup_insert_ne by lia. rewrite lookup_insert_ne by lia.
  rewrite lookup_insert_eq. cbn.
  rewrite !lookup_fmap.
  rewrite lookup_insert_ne by lia. rewrite lookup_insert_eq.
  rewrite (lookup_insert_ne _ (S fr) (S (S fr))) by lia.
  rewrite (lookup_insert_ne _ (S (S (S fr))) (S (S fr))) by lia.
  rewrite lookup_insert_eq. cbn.
  rewrite bool_decide_eq_true_2 by (apply elem_of_cons; by left).
  done.
Qed.

(** The timer fires first, at its deadline or later: the callback closes
    the server and the race rejects. *)
Lemma grantWorld_timer_fires o key w dt :
  (60000 ≤ dt)%N →
  let s := fresh w in
  let w2 := env_steps (grantWorld o key w) [Elapse dt; TimerFires (S (S s))] in
  promises w2 !! S (S (S s))
    = Some (mkPromise (KRace [S s; S (S s)]) (Settled (Err timeoutError)))
  ∧ tokens w2 = tokens w
  ∧ pendingGrants w2 = <[key := S (S (S s))]> (pendingGrants w)
  ∧ trace w2 = trace (grantWorld o key w) ++ [EvServerClose s].
Proof.
  intros Hdt.
  destruct w as [nw tk pg pm fr tr]. unfold grantWorld, env_steps.
  cbn. rewrite lookup_insert_ne by lia. rewrite lookup_insert_eq.
  destruct (N.leb_spec (nw + 60000) (nw + dt)) as [_|?]; [|lia].
  unfold run_callback, settle. cbn.
  rewrite lookup_insert_ne by lia. rewrite lookup_insert_eq. cbn.
  rewrite !lookup_fmap.
  rewrite lookup_insert_ne by lia. rewrite lookup_insert_eq. cbn.
  rewrite bool_decide_eq_true_2
    by (apply elem_of_cons; right; apply elem_of_cons; by left).
  done.
Qed.

End Facts.

Lemma settle_trace p r w : trace (settle p r w) = trace w.
Proof. unfold settle. by destruct (promises w !! p) as [[k [|x]]|]. Qed.

(** The environment adds nothing to the trace but the closes of timer
    callbacks. *)
Lemma env_step_trace w e :
  ∃ closes, trace (env_step w e) = trace w ++ closes ∧ closesOnly closes.
Proof.
  assert (∀ w', trace w' = trace w →
               ∃ closes, trace w' = trace w ++ closes ∧ closesOnly closes)
    as Hsame.
  { intros w' ->. exists []. rewrite app_nil_r. split; [done|constructor]. }
  destruct e as [ms|p r|p]; cbn.
  - by apply Hsame.
  - apply Hsame.
    destruct (promises w !! p) as [[[s| |] [|x]]|]; try done.
    apply settle_trace.
  - destruct (promises w !! p) as [[[s|deadline [s e]|] [|x]]|];
      try by apply Hsame.
    destruct (deadline <=? now w)%N; [|by apply Hsame].
    exists [EvServerClose s]. split; [apply settle_trace|].
    constructor; [eauto|constructor].
Qed.

Lemma env_steps_trace w es :
  ∃ closes, trace (env_steps w es) = trace w ++ closes ∧ closesOnly closes.
Proof.
  revert w. induction es as [|e es IH]; intros w.
  - exists []. rewrite app_nil_r. split; [done|constructor].
  - destruct (env_step_trace w e) as (c1 & H1 & Hc1).
    destruct (IH (env_step w e)) as (c2 & H2 & Hc2).
    exists (c1 ++ c2). split; [|by apply Forall_app].
    cbn. unfold env_steps in H2. by rewrite H2, H1, app_assoc.
Qed.

(** A timer that fires late, on its own: the callback still runs, closing
    the server; settled promises keep their value. *)
Lemma late_timer_fires w t deadline s e dt :
  promises w !! t = Some (mkPromise (KTimer deadline (CloseThenThrow s e)) Pending) →
  (deadline ≤ now w + dt)%N →
  let w' := env_steps w [Elapse dt; TimerFires t] in
  trace w' = trace w ++ [EvServerClose s]
  ∧ tokens w' = tokens w
  ∧ pendingGrants w' = pendingGrants w
  ∧ promises w' !! t
    = Some (mkPromise (KTimer deadline (CloseThenThrow s e)) (Settled (Err e)))
  ∧ (∀ q k x, promises w !! q = Some (mkPromise k (Settled x)) →
              promises w' !! q = Some (mkPromise k (Settled x))).
Proof.
  intros Ht Hdl. destruct w as [nw tk pg pm fr tr]. cbn in *.
  rewrite Ht. destruct (N.leb_spec deadline (nw + dt)) as [_|?]; [|lia].
  unfold run_callback, settle. cbn. rewrite Ht. cbn.
  repeat split.
  - rewrite lookup_fmap, lookup_insert_eq. reflexivity.
  - intros q k x Hq. rewrite lookup_fmap.
    rewrite lookup_insert_ne by (intros ->; rewrite Ht in Hq; discriminate).
    rewrite Hq. cbn. by destruct k.
Qed.

(** A timer that already fired, or a grant that settles after the race is
    decided, changes no trace. *)
Lemma settled_timer_is_spent w t k x dt :
  promises w !! t = Some (mkPromise k (Settled x)) →
  trace (env_steps w [Elapse dt; TimerFires t]) = trace w.
Proof.
  intros Ht. destruct w as [nw tk pg pm fr tr]. cbn in *. rewrite Ht.
  by destruct k.
Qed.

Section Outcomes.
Context `{Runtime}.
Context (conf : RemoteConfig) (o : OAuthConfig) (env : Env) (w w1 : World).
Hypothesis Hoauth : oauth conf = Some o.
Hypothesis Hnone : tokens w !! formatKey (name conf) = None.
Hypothesis Hmiss : vaultMiss env conf o w w1.

Let connId := formatKey (name conf).
Let key := formatKey connId.
Let r := S (S (S (fresh w1))).

Lemma login_awaits_race :
  interp env (login conf o) w =
  interp env (bind (await (Await r)) (completeGrant conf o connId))
         (grantWorld o key w1).
Proof.
  rewrite (login_falls_through conf o env w w1 Hnone Hmiss).
  apply interactiveGrant_registers.
Qed.

(** Nothing settles: the call stays suspended on its race. *)
Lemma login_blocks :
  env_while_awaiting env r = [] →
  interp env (login conf o) w =
  (grantWorld o key w1,
   Blocked (bind (await (Await r)) (completeGrant conf o connId))).
Proof.
  intros Hs. rewrite login_awaits_race, interp_await, Hs.
  destruct w1 as [nw tk pg pm fr tr]. subst r. cbn.
  rewrite lookup_insert_eq. reflexivity.
Qed.

(** The grant resolves first. *)
Lemma login_grant_resolves dt tk :
  env_while_awaiting env r = [Elapse dt; GrantSettles (S (fresh w1)) (Ok tk)] →
  interp env (login conf o) w =
  interp env (completeGrant conf o connId tk)
    (env_steps (grantWorld o key w1)
       [Elapse dt; GrantSettles (S (fresh w1)) (Ok tk)]).
Proof.
  intros Hs. rewrite login_awaits_race, interp_await, Hs. cbv zeta.
  destruct (grantWorld_grant_settles o key w1 dt (Ok tk)) as (Hr & _).
  subst r. by rewrite Hr.
Qed.

(** The grant rejects first. *)
Lemma login_grant_rejects dt e :
  env_while_awaiting env r = [Elapse dt; GrantSettles (S (fresh w1)) (Err e)] →
  interp env (login conf o) w =
  (env_steps (grantWorld o key w1)
     [Elapse dt; GrantSettles (S (fresh w1)) (Err e)], Thrown e).
Proof.
  intros Hs. rewrite login_awaits_race, interp_await, Hs. cbv zeta.
  destruct (grantWorld_grant_settles o key w1 dt (Err e)) as (Hr & _).
  subst r. by rewrite Hr.
Qed.

(** The timer fires first. *)
Lemma login_timer_wins dt :
  (60000 ≤ dt)%N →
  env_while_awaiting env r = [Elapse dt; TimerFires (S (S (fresh w1)))] →
  interp env (login conf o) w =
  (env_steps (grantWorld o key w1)
     [Elapse dt; TimerFires (S (S (fresh w1)))], Thrown timeoutError).
Proof.
  intros Hdt Hs. rewrite login_awaits_race, interp_await, Hs. cbv zeta.
  destruct (grantWorld_timer_fires o key w1 dt Hdt) as (Hr & _).
  subst r. by rewrite Hr.
Qed.

End Outcomes.

(** A pending grant settles in any world: the race over it follows; the
    promises that are not races over it stay as they are. *)
Lemma race_settles_with_grant w g s tm r x dt :
  promises w !! g = Some (mkPromise (KGrant s) Pending) →
  promises w !! r = Some (mkPromise (KRace [g; tm]) Pending) →
  let w2 := env_steps w [Elapse dt; GrantSettles g x] in
  promises w2 !! r = Some (mkPromise (KRace [g; tm]) (Settled x))
  ∧ tokens w2 = tokens w
  ∧ pendingGrants w2 = pendingGrants w
  ∧ trace w2 = trace w
  ∧ (∀ q pk, q ≠ g → promises w !! q = Some pk →
             (∀ ps, p_kind pk = KRace ps → g ∉ ps) →
             promises w2 !! q = Some pk).
Proof.
  intros Hg Hr. destruct w as [nw tk pg pm fr tr]. cbn in *.
  rewrite Hg. unfold settle. cbn. rewrite Hg. cbn.
  assert (r ≠ g) as Hne by (intros ->; rewrite Hg in Hr; discriminate).
  repeat split.
  - rewrite lookup_fmap, lookup_insert_ne by done. rewrite Hr. cbn.
    rewrite bool_decide_eq_true_2 by (apply elem_of_cons; by left). done.
  - intros q pk Hq Hpk Hrace.
    rewrite lookup_fmap, lookup_insert_ne by done. rewrite Hpk. cbn.
    destruct pk as [[?| |ps] [|?]]; try done.
    cbn. rewrite bool_decide_eq_false_2; [done|]. by apply Hrace.
Qed.

Lemma closeCalls_app s evs1 evs2 :
  closeCalls s (evs1 ++ evs2) = closeCalls s evs1 + closeCalls s evs2.
Proof. unfold closeCalls. by rewrite List.filter_app, length_app. Qed.

Lemma closeCalls_close s : closeCalls s [EvServerClose s] = 1.
Proof. unfold closeCalls. cbn. by rewrite Nat.eqb_refl. Qed.

Lemma grantWorld_closeCalls o key w :
  closeCalls (fresh w) (trace (grantWorld o key w)) = closeCalls (fresh w) (trace w).
Proof.
  unfold grantWorld. cbv [trace]. rewrite closeCalls_app.
  unfold closeCalls at 2. cbn. lia.
Qed.


(** ** The sample JSON reader inverts the sample writer on token records *)

Lemma append_cons c (x y : string) : String c x +:+ y = String c (x +:+ y).
Proof. reflexivity. Qed.

Lemma append_assoc (x y z : string) : (x +:+ y) +:+ z = x +:+ (y +:+ z).
Proof.
  induction x as [|c x IH]; [reflexivity|].
  rewrite !append_cons. by rewrite IH.
Qed.

Lemma read_string_escape (s rest : string) :
  Sample.read_string (Sample.escape s +:+ String Sample.quote rest)
  = Some (s, rest).
Proof.
  induction s as [|c s IH]; [reflexivity|]. cbn [Sample.escape].
  destruct (Ascii.eqb c Sample.quote) eqn:Hq;
    [|destruct (Ascii.eqb c Sample.backslash) eqn:Hb];
    cbn [orb]; rewrite ?append_cons; cbn [Sample.read_string].
  - change (Ascii.eqb Sample.backslash Sample.quote) with false.
    change (Ascii.eqb Sample.backslash Sample.backslash) with true.
    unfold Sample.unescape. rewrite Hq. cbn [orb]. by rewrite IH.
  - change (Ascii.eqb Sample.backslash Sample.quote) with false.
    change (Ascii.eqb Sample.backslash Sample.backslash) with true.
    unfold Sample.unescape. rewrite Hq, Hb. cbn [orb]. by rewrite IH.
  - rewrite Hq, Hb. by rewrite IH.
Qed.

Lemma quoted_append (s rest : string) :
  Sample.quoted s +:+ rest
  = String Sample.quote (Sample.escape s +:+ String Sample.quote rest).
Proof. unfold Sample.quoted. by rewrite append_cons, append_assoc. Qed.

Lemma next_is_here c c' (tl : string) :
  Sample.is_space c' = false →
  Sample.next_is c (String c' tl) = if Ascii.eqb c' c then Some tl else None.
Proof. intros Hc. unfold Sample.next_is. cbn [Sample.skip_space]. by rewrite Hc. Qed.

(** A string value is read back. *)
Lemma read_value_quoted fuel (s rest : string) :
  Sample.read_value (S fuel) (Sample.quoted s +:+ rest) = Some (JStr s, rest).
Proof.
  rewrite quoted_append. cbn [Sample.read_value Sample.skip_space].
  change (Sample.is_space Sample.quote) with false. cbv iota.
  change (Ascii.eqb Sample.quote Sample.quote) with true. cbv iota.
  by rewrite read_string_escape.
Qed.

Lemma read_members_unfold fuel acc (s : string) :
  Sample.read_members (S fuel) acc s
  = match Sample.next_is Sample.quote s with
    | Some rest =>
        match Sample.read_string rest with
        | Some (k, tl) =>
            match Sample.next_is ":" tl with
            | Some tl' =>
                match Sample.read_value fuel tl' with
                | Some (v, tl'') =>
                    match Sample.next_is "," tl'', Sample.next_is "}" tl'' with
                    | Some more, _ =>
                        Sample.read_members fuel (Sample.set_field k v acc) more
                    | None, Some more =>
                        Some (JObj (Sample.set_field k v acc), more)
                    | None, None => None
                    end
                | None => None
                end
            | None => None
            end
        | None => None
        end
    | None => None
    end.
Proof. reflexivity. Qed.

(** A member with a string value is read up to what follows it. *)
Lemma read_member fuel acc (k v rest : string) :
  Sample.read_members (S (S fuel)) acc
    (Sample.quoted k +:+ ":" +:+ Sample.quoted v +:+ rest)
  = match Sample.next_is "," rest, Sample.next_is "}" rest with
    | Some more, _ =>
        Sample.read_members (S fuel) (Sample.set_field k (JStr v) acc) more
    | None, Some more => Some (JObj (Sample.set_field k (JStr v) acc), more)
    | None, None => None
    end.
Proof.
  rewrite read_members_unfold, quoted_append.
  rewrite next_is_here by reflexivity.
  change (Ascii.eqb Sample.quote Sample.quote) with true. cbv iota.
  rewrite read_string_escape, append_cons.
  rewrite next_is_here by reflexivity. cbn [Ascii.eqb Bool.eqb]. cbv iota.
  change ("" +:+ ?x) with x.
  by rewrite read_value_quoted.
Qed.

(** In the sample runtime the record of a stripped token with string
    fields is read back as it was written. *)
Lemma sample_json_round_trip (a r t : string) :
  let record := JObj [("accessToken", JStr a); ("refreshToken", JStr r);
                      ("tokenType", JStr t)] in
  Sample.parse (Sample.stringify record) = Ok record.
Proof.
  cbv zeta.
  assert (Sample.stringify
            (JObj [("accessToken", JStr a); ("refreshToken", JStr r);
                   ("tokenType", JStr t)])
          = String "{"
              (Sample.quoted "accessToken" +:+ ":" +:+ Sample.quoted a +:+
               String ","
                 (Sample.quoted "refreshToken" +:+ ":" +:+ Sample.quoted r +:+
                  String ","
                    (Sample.quoted "tokenType" +:+ ":" +:+ Sample.quoted t +:+
                     String "}" ""))))
    as ->.
  { cbn [Sample.stringify Sample.join foldl map].
    rewrite !append_assoc. reflexivity. }
  unfold Sample.parse.
  match goal with
  | |- context [Sample.read_value (S (String.length ?text)) _] =>
      assert (∃ f, String.length text = S (S (S (S f)))) as [f ->]
        by (eexists; reflexivity)
  end.
  cbn [Sample.read_value Sample.skip_space].
  change (Sample.is_space "{") with false. cbv iota.
  change (Ascii.eqb "{" Sample.quote) with false.
  change (Ascii.eqb "{" "[") with false.
  change (Ascii.eqb "{" "{") with true. cbv iota.
  rewrite (quoted_append "accessToken") at 1.
  rewrite next_is_here by reflexivity.
  change (Ascii.eqb Sample.quote "}") with false. cbv iota.
  do 3 (rewrite read_member; rewrite !next_is_here by reflexivity;
        cbn [Ascii.eqb Bool.eqb]; cbv iota).
  reflexivity.
Qed.

(** So in the sample runtime the round trip of a vault record needs no
    hypothesis on the runtime: every token with non-empty string fields,
    stripped and serialized, is deserialized to its three fields. *)
Lemma sample_token_round_trip (a r t : string) extra :
  a ≠ "" → r ≠ "" → t ≠ "" →
  deserializeToken (H := Sample.runtime)
    (Some (serializeToken (H := Sample.runtime)
             (strip (mkToken (JStr a) (JStr r) (JStr t) extra))))
  = Ok (Some (mkToken (JStr a) (JStr r) (JStr t) [])).
Proof.
  intros Ha Hr Ht.
  pose proof (sample_json_round_trip a r t) as Hrt. cbv zeta in Hrt.
  apply (deserialize_parsed_record (H := Sample.runtime) _
           (mkToken (JStr a) (JStr r) (JStr t) [])).
  - intros Hempty.
    change (Sample.stringify
              (JObj [("accessToken", JStr a); ("refreshToken", JStr r);
                     ("tokenType", JStr t)]) = "") in Hempty.
    rewrite Hempty in Hrt. discriminate Hrt.
  - exact Hrt.
  - cbn. by destruct (String.eqb_spec a "").
  - cbn. by destruct (String.eqb_spec r "").
  - cbn. by destruct (String.eqb_spec t "").
Qed.

(** ** The claims *)

Section Claims.
  Context `{Runtime}.

(** C6. With a token for the connection in the TokenStore, the login
    operation returns that token's accessToken and leaves the world as it
    was: no vault read, no login server, no grant. *)
Theorem login_fast_path conf o env w t :
  oauth conf = Some o →
  tokens w !! formatKey (name conf) = Some t →
  oauthLogin conf = Some (login conf o)
  ∧ interp env (login conf o) w = (w, Returned (accessToken t)).
Proof.
  intros Ho Ht. split.
  - unfold oauthLogin. by rewrite Ho.
  - unfold login. prog_unfold. cbn [bind].
    erewrite interp_sync by reflexivity. rewrite Ht. cbn.
    rewrite andb_false_r. reflexivity.
Qed.

(** C7. Round trip of the vault record: a token whose three fields are
    truthy, written by [serializeToken] and read back by
    [deserializeToken], gives the token's three fields, in every runtime
    whose [JSON.parse] reads back what its [JSON.stringify] writes for the
    object of the token; a record that parses and in which one of the
    three fields is missing or empty gives [undefined]. *)
Theorem vault_record_round_trip :
  (∀ t : Token,
     truthy (accessToken t) = true →
     truthy (refreshToken t) = true →
     truthy (tokenType t) = true →
     jsonRoundTrip (objectOfToken t) →
     ∃ t', deserializeToken (Some (serializeToken t)) = Ok (Some t')
           ∧ accessToken t' = accessToken t
           ∧ refreshToken t' = refreshToken t
           ∧ tokenType t' = tokenType t)
  ∧ (∀ (s : string) (d : JValue),
       JSON_parse s = Ok d →
       missingOrEmpty (prop d "accessToken")
       ∨ missingOrEmpty (prop d "refreshToken")
       ∨ missingOrEmpty (prop d "tokenType") →
       deserializeToken (Some s) = Ok None).
Proof.
  split.
  - intros t Ha Hr Ht [Hne Hparse]. exists (strip t).
    unfold serializeToken.
    by rewrite (deserialize_parsed_record (JSON_stringify (objectOfToken t)) t
                  Hne Hparse Ha Hr Ht).
  - intros s d Hparse Hmiss.
    unfold deserializeToken, parseIfAny. cbn [truthyS].
    destruct (String.eqb_spec s "") as [->|_]; [reflexivity|].
    cbn [negb]. rewrite Hparse. unfold jor.
    destruct (truthy d) eqn:Hd.
    + assert (truthy (prop d "accessToken") && truthy (prop d "refreshToken")
              && truthy (prop d "tokenType") = false) as ->; [|reflexivity].
      destruct Hmiss as [[-> | ->] | [[-> | ->] | [-> | ->]]]; cbn;
        rewrite ?andb_false_r; reflexivity.
    + reflexivity.
Qed.

(** C8. Whenever [fromVault] returns a token, the vault held a record, the
    record was deserialized, a refresh of the stored refresh token was asked
    of the OAuth provider and answered, and the token returned is the
    stripped answer of the provider: its accessToken is the refreshed one,
    whatever the stored one was. *)
Theorem fromVault_returns_refreshed conf env w w' tk :
  interp env (fromVault conf) w = (w', Returned (Some tk)) →
  ∃ o stored td refreshed,
    oauth conf = Some o
    ∧ env_getPassword env (vaultId (name conf)) (str (clientId o))
      = Ok (Some stored)
    ∧ deserializeToken (Some stored) = Ok (Some td)
    ∧ let rq := refreshRequest (clientId o) (clientSecret o) (loginUrl o) td in
      rq_refreshToken rq = refreshToken td
      ∧ env_refresh env rq = Ok refreshed
      ∧ tk = strip refreshed
      ∧ accessToken tk = accessToken refreshed
      ∧ trace w' = trace w ++ [EvGetPassword (vaultId (name conf))
                                 (str (clientId o)); EvRefresh rq].
Proof.
  intros Hrun. destruct (vaultConfigured conf) eqn:Hc.
  - destruct (vaultConfigured_oauth conf Hc) as [o Ho].
    rewrite (fromVault_configured conf o env w Ho Hc) in Hrun. cbn in Hrun.
    destruct (env_getPassword env _ _) as [tp|e] eqn:Hget; [|done].
    destruct tp as [stored|]; [|done].
    destruct (truthyS (Some stored)); [|done].
    destruct (deserializeToken (Some stored)) as [[td|]|e] eqn:Hde; try done.
    destruct (env_refresh env _) as [refreshed|e] eqn:Hre; [|done].
    injection Hrun as <- <-.
    exists o, stored, td, refreshed. cbn.
    repeat split; try done. by rewrite <- app_assoc.
  - rewrite fromVault_unconfigured in Hrun by done. done.
Qed.

(** C9. [fromVault] never throws and never stays suspended: it returns,
    whatever the vault, the deserializer and the refresh exchange do. When
    the read, the deserialization or the refresh fails it returns [none],
    and the login operation then goes on to the interactive grant. *)
Theorem fromVault_absorbs_failures conf env w :
  (∃ w' r, interp env (fromVault conf) w = (w', Returned r))
  ∧ (∀ o, oauth conf = Some o →
          vaultLoadFails env conf o →
          ∃ w', interp env (fromVault conf) w = (w', Returned None))
  ∧ (∀ o w', oauth conf = Some o →
             saveCredentials o = true →
             tokens w !! formatKey (name conf) = None →
             interp env (fromVault conf) w = (w', Returned None) →
             interp env (login conf o) w
             = interp env (interactiveGrant conf o (formatKey (name conf))) w').
Proof.
  split; [|split].
  - destruct (fromVault_frame conf env w) as (w' & r & _ & Hrun & _). eauto.
  - intros o Ho Hfail. destruct (vaultConfigured conf) eqn:Hc.
    + rewrite (fromVault_configured conf o env w Ho Hc). cbn.
      unfold vaultLoadFails in Hfail.
      destruct (env_getPassword env _ _) as [tp|e]; [|eauto].
      destruct (truthyS tp) eqn:Htp.
      * destruct Hfail as [|Hfail]; [done|].
        destruct (deserializeToken tp) as [[td|]|e]; eauto.
        destruct Hfail as [e ->]. eauto.
      * eauto.
    + rewrite fromVault_unconfigured by done. eauto.
  - intros o w' Ho Hsave Ht Hrun. apply login_falls_through; [done|].
    unfold vaultMiss. by rewrite Hsave.
Qed.

(** C10. Only the absence of the [oauth] object makes [oauthLogin] return
    nothing. With the object present and clientId, clientSecret or loginUrl
    missing or empty, a login operation is returned; [fromVault] and
    [toVault] then do nothing, by their own guard, and the operation, when
    no token is stored, builds a login server and starts a grant with the
    incomplete credentials: whatever happens afterwards, the calls it makes
    are these and the timer, and the vault is never called. *)
Theorem incomplete_oauth_still_logs_in conf :
  (oauthLogin conf = None ↔ oauth conf = None)
  ∧ (∀ o, oauth conf = Some o →
          vaultConfigured conf = false →
          oauthLogin conf = Some (login conf o)
          ∧ (∀ env w, interp env (fromVault conf) w = (w, Returned None))
          ∧ (∀ env w t, interp env (toVault conf t) w = (w, Returned tt))
          ∧ (∀ env w,
               tokens w !! formatKey (name conf) = None →
               ∃ w' out closes,
                 interp env (login conf o) w = (w', out)
                 ∧ trace w'
                   = trace w ++
                     [EvLoginServer (fresh w);
                      EvCfCodeGrant (loginUrl o) (clientId o) (clientSecret o)
                                    (fresh w) (S (fresh w));
                      EvAfter 60000 (S (S (fresh w)))] ++ closes
                 ∧ closesOnly closes)).
Proof.
  split.
  - unfold oauthLogin. destruct (oauth conf); split; done.
  - intros o Ho Hc. split; [|split; [|split]].
    + unfold oauthLogin. by rewrite Ho.
    + intros env w. by apply fromVault_unconfigured.
    + intros env w t. by apply toVault_unconfigured.
    + intros env w Ht.
      assert (vaultMiss env conf o w w) as Hm.
      { unfold vaultMiss. destruct (saveCredentials o); [|done].
        by apply fromVault_unconfigured. }
      rewrite (login_awaits_race conf o env w w Ht Hm), interp_await.
      cbv zeta.
      destruct (env_steps_trace
                  (grantWorld o (formatKey (formatKey (name conf))) w)
                  (env_while_awaiting env (S (S (S (fresh w))))))
        as (closes & Htr & Hcl).
      set (w2 := env_steps _ _) in *.
      change (trace (grantWorld o (formatKey (formatKey (name conf))) w))
        with (trace w ++
              [EvLoginServer (fresh w);
               EvCfCodeGrant (loginUrl o) (clientId o) (clientSecret o)
                             (fresh w) (S (fresh w));
               EvAfter 60000 (S (S (fresh w)))]) in Htr.
      rewrite <- app_assoc in Htr.
      destruct (promises w2 !! _) as [[k [|[tk|e]]]|];
        try (eexists _, _, closes; split; [reflexivity|]; by split).
      rewrite (completeGrant_interp conf o _ tk env _ Ho).
      eexists _, _, closes. split; [reflexivity|]. split; [|done].
      unfold storeGrant. rewrite Hc, andb_false_r. exact Htr.
Qed.

(** C5. When 60 seconds pass without the grant settling and the timer
    fires, the login operation fails with the error "User logon timed out"
    and the calls it made are: the server, the grant, the timer, and one
    [close] on the server. The timer fires once: a second firing closes
    nothing more. *)
Theorem login_times_out conf o env w w1 dt :
  oauth conf = Some o →
  tokens w !! formatKey (name conf) = None →
  vaultMiss env conf o w w1 →
  let s := fresh w1 in
  let g := S s in
  let t := S g in
  let r := S t in
  env_while_awaiting env r = [Elapse dt; TimerFires t] →
  (60000 ≤ dt)%N →
  ∃ w' evs,
    interp env (login conf o) w = (w', Thrown timeoutError)
    ∧ message timeoutError = "User logon timed out"
    ∧ trace w' = trace w1 ++ evs
    ∧ evs = [EvLoginServer s;
             EvCfCodeGrant (loginUrl o) (clientId o) (clientSecret o) s g;
             EvAfter 60000 t;
             EvServerClose s]
    ∧ closeCalls s evs = 1
    ∧ (∀ dt', trace (env_steps w' [Elapse dt'; TimerFires t]) = trace w').
Proof.
  intros Ho Ht Hm s g t r Hs Hdt.
  rewrite (login_timer_wins conf o env w w1 Ht Hm dt Hdt Hs).
  eexists _, _. split; [reflexivity|]. split; [reflexivity|].
  destruct (grantWorld_timer_fires o (formatKey (formatKey (name conf))) w1 dt Hdt)
    as (_ & _ & _ & Htr).
  assert (promises (grantWorld o (formatKey (formatKey (name conf))) w1) !! t
          = Some (mkPromise (KTimer (now w1 + 60000) (CloseThenThrow s timeoutError))
                            Pending)) as Hpt.
  { subst s g t. cbn. rewrite lookup_insert_ne by lia. apply lookup_insert_eq. }
  destruct (late_timer_fires _ t _ s timeoutError dt Hpt) as (_ & _ & _ & Hts & _).
  { cbn. lia. }
  split; [|split; [reflexivity|split]].
  - rewrite Htr. cbn. rewrite <- app_assoc. reflexivity.
  - unfold closeCalls. cbn. by rewrite Nat.eqb_refl.
  - intros dt'. eapply settled_timer_is_spent. exact Hts.
Qed.

(** C2. What is left in the registry once the race has settled. When the
    grant resolves, the entry of the connection is removed. When the grant
    rejects, or when the timer fires first, the login operation throws at
    its [await] and never reaches [pendingGrants.delete]: the entry is
    still there, and holds the rejected race. *)
Theorem registry_entry_after_race conf o env w w1 :
  oauth conf = Some o →
  tokens w !! formatKey (name conf) = None →
  vaultMiss env conf o w w1 →
  let key := formatKey (formatKey (name conf)) in
  let s := fresh w1 in
  let g := S s in
  let t := S g in
  let r := S t in
  (∀ dt tk,
     env_while_awaiting env r = [Elapse dt; GrantSettles g (Ok tk)] →
     ∃ w', interp env (login conf o) w = (w', Returned (accessToken tk))
           ∧ pendingGrants w' !! key = None)
  ∧ (∀ dt e,
       env_while_awaiting env r = [Elapse dt; GrantSettles g (Err e)] →
       ∃ w', interp env (login conf o) w = (w', Thrown e)
             ∧ pendingGrants w' !! key = Some r
             ∧ promises w' !! r
               = Some (mkPromise (KRace [g; t]) (Settled (Err e))))
  ∧ (∀ dt,
       (60000 ≤ dt)%N →
       env_while_awaiting env r = [Elapse dt; TimerFires t] →
       ∃ w', interp env (login conf o) w = (w', Thrown timeoutError)
             ∧ pendingGrants w' !! key = Some r
             ∧ promises w' !! r
               = Some (mkPromise (KRace [g; t]) (Settled (Err timeoutError)))).
Proof.
  intros Ho Ht Hm key s g t r. subst key s g t r. split; [|split].
  - intros dt tk Hs.
    rewrite (login_grant_resolves conf o env w w1 Ht Hm dt tk Hs).
    rewrite (completeGrant_interp conf o _ tk env _ Ho).
    eexists. split; [reflexivity|].
    destruct (storeGrant_facts conf o (formatKey (name conf)) tk
                (env_steps (grantWorld o (formatKey (formatKey (name conf))) w1)
                   [Elapse dt; GrantSettles (S (fresh w1)) (Ok tk)]))
      as (_ & _ & _ & -> & _).
    apply lookup_delete_eq.
  - intros dt e Hs.
    rewrite (login_grant_rejects conf o env w w1 Ht Hm dt e Hs).
    eexists. split; [reflexivity|].
    destruct (grantWorld_grant_settles o (formatKey (formatKey (name conf)))
                w1 dt (Err e)) as (Hr & _ & _ & _ & Hp & _).
    split; [|exact Hr]. rewrite Hp. apply lookup_insert_eq.
  - intros dt Hdt Hs.
    rewrite (login_timer_wins conf o env w w1 Ht Hm dt Hdt Hs).
    eexists. split; [reflexivity|].
    destruct (grantWorld_timer_fires o (formatKey (formatKey (name conf)))
                w1 dt Hdt) as (Hr & _ & Hp & _).
    split; [|exact Hr]. rewrite Hp. apply lookup_insert_eq.
Qed.

(** C3 (as amended). When the grant resolves before the timer fires, the
    login operation returns the grant's accessToken and stores the token,
    without closing the server. The timer is not cancelled: when it fires
    later it calls [close] on the server, once; it changes neither the
    TokenStore, nor the registry, nor the settled race. *)
Theorem grant_first_then_timer_closes conf o env w w1 dt tk :
  oauth conf = Some o →
  tokens w !! formatKey (name conf) = None →
  vaultMiss env conf o w w1 →
  let s := fresh w1 in
  let g := S s in
  let t := S g in
  let r := S t in
  env_while_awaiting env r = [Elapse dt; GrantSettles g (Ok tk)] →
  ∃ w',
    interp env (login conf o) w = (w', Returned (accessToken tk))
    ∧ tokens w' !! formatKey (name conf) = Some tk
    ∧ closeCalls s (trace w') = closeCalls s (trace w1)
    ∧ ∀ dt',
        (60000 ≤ dt + dt')%N →
        let w'' := env_steps w' [Elapse dt'; TimerFires t] in
        trace w'' = trace w' ++ [EvServerClose s]
        ∧ closeCalls s (trace w'') = S (closeCalls s (trace w'))
        ∧ tokens w'' = tokens w'
        ∧ pendingGrants w'' = pendingGrants w'
        ∧ promises w'' !! r = Some (mkPromise (KRace [g; t]) (Settled (Ok tk))).
Proof.
  intros Ho Ht Hm s g t r Hs.
  rewrite (login_grant_resolves conf o env w w1 Ht Hm dt tk Hs).
  rewrite (completeGrant_interp conf o _ tk env _ Ho).
  destruct (grantWorld_grant_settles o (formatKey (formatKey (name conf)))
              w1 dt (Ok tk)) as (Hr & Hpt & Hnow & _ & _ & Htr).
  fold s g t r in Hr, Hpt, Htr.
  set (w2 := env_steps _ _) in *.
  destruct (storeGrant_facts conf o (formatKey (name conf)) tk w2)
    as (Hp' & Hn' & Htk & _ & Hcl).
  set (w' := storeGrant _ _ _ _ _) in *.
  exists w'. split; [reflexivity|]. split; [|split].
  - rewrite Htk. apply lookup_insert_eq.
  - rewrite Hcl, Htr. apply grantWorld_closeCalls.
  - intros dt' Hdt.
    destruct (late_timer_fires w' t (now w1 + 60000) s timeoutError dt')
      as (Htr' & Htk' & Hpg' & _ & Hkeep).
    { by rewrite Hp'. }
    { rewrite Hn', Hnow. lia. }
    split; [exact Htr'|]. split.
    { rewrite Htr', closeCalls_app, closeCalls_close. lia. }
    split; [exact Htk'|]. split; [exact Hpg'|].
    apply Hkeep. by rewrite Hp'.
Qed.



(** C1 (as amended). Two login operations for one connection, the second
    started while the grant of the first is pending and the TokenStore has
    no token: the login operation does not consult the registry, so each
    builds a login server and starts a grant of its own (two grants in
    all), the registry holds the race of the second, and each call, once
    its grant resolves, returns the accessToken of its own grant. *)
Theorem concurrent_logins_each_start_a_grant conf o envA envB w w1 wB1 :
  oauth conf = Some o →
  tokens w !! formatKey (name conf) = None →
  vaultMiss envA conf o w w1 →
  let connId := formatKey (name conf) in
  let key := formatKey connId in
  let gA := S (fresh w1) in
  let rA := S (S (S (fresh w1))) in
  let wA := grantWorld o key w1 in
  let gB := S (fresh wB1) in
  let rB := S (S (S (fresh wB1))) in
  let wB := grantWorld o key wB1 in
  env_while_awaiting envA rA = [] →
  vaultMiss envB conf o wA wB1 →
  env_while_awaiting envB rB = [] →
  interp envA (login conf o) w = (wA, Blocked (suspendedLogin conf o rA))
  ∧ tokens wA !! connId = None
  ∧ pendingGrants wA !! key = Some rA
  ∧ interp envB (login conf o) wA = (wB, Blocked (suspendedLogin conf o rB))
  ∧ gB ≠ gA
  ∧ grantsStarted (trace wB) = 2 + grantsStarted (trace w1)
  ∧ pendingGrants wB !! key = Some rB
  ∧ ∀ env dtA dtB tokA tokB,
      env_while_awaiting env rA = [Elapse dtA; GrantSettles gA (Ok tokA)] →
      env_while_awaiting env rB = [Elapse dtB; GrantSettles gB (Ok tokB)] →
      ∃ w3 w4,
        interp env (suspendedLogin conf o rA) wB
        = (w3, Returned (accessToken tokA))
        ∧ interp env (suspendedLogin conf o rB) w3
          = (w4, Returned (accessToken tokB)).
Proof.
  intros Ho Ht Hm connId key gA rA wA gB rB wB HsA HmB HsB.
  rewrite (login_blocks conf o envA w w1 Ht Hm HsA).
  destruct (vaultMiss_frame conf o envA w w1 Hm) as (evs1 & Hw1 & _).
  split; [reflexivity|].
  assert (tokens wA !! connId = None) as HtA.
  { subst wA. rewrite Hw1. exact Ht. }
  split; [exact HtA|]. split; [apply lookup_insert_eq|].
  destruct (vaultMiss_frame conf o envB wA wB1 HmB) as (evsB & HwB1 & HgB).
  assert (fresh wB1 = S (S (S (S (fresh w1))))) as HfB
    by (rewrite HwB1; reflexivity).
  rewrite (login_blocks conf o envB wA wB1 HtA HmB HsB).
  split; [reflexivity|].
  split; [subst gA gB; lia|].
  split.
  { subst wB. cbn. rewrite HwB1. cbn. unfold grantsStarted.
    rewrite !List.filter_app, !length_app. fold (grantsStarted evsB).
    rewrite HgB. cbn. lia. }
  split; [apply lookup_insert_eq|].
  intros env dtA dtB tokA tokB HeA HeB.
  set (tA := S (S (fresh w1))). set (tB := S (S (fresh wB1))).
  assert (promises wB !! gA = Some (mkPromise (KGrant (fresh w1)) Pending))
    as HgA.
  { subst wB. cbn. rewrite HfB, HwB1. cbn.
    do 3 (rewrite lookup_insert_ne by (subst gA; lia)).
    do 2 (rewrite lookup_insert_ne by (subst gA; lia)).
    apply lookup_insert_eq. }
  assert (promises wB !! rA = Some (mkPromise (KRace [gA; tA]) Pending)) as HrA.
  { subst wB. cbn. rewrite HfB, HwB1. cbn.
    do 3 (rewrite lookup_insert_ne by (subst rA; lia)).
    apply lookup_insert_eq. }
  assert (promises wB !! gB = Some (mkPromise (KGrant (fresh wB1)) Pending))
    as HgB'.
  { subst wB gB. cbn.
    do 2 (rewrite lookup_insert_ne by lia). apply lookup_insert_eq. }
  assert (promises wB !! rB = Some (mkPromise (KRace [gB; tB]) Pending)) as HrB.
  { subst wB rB. cbn. apply lookup_insert_eq. }
  destruct (race_settles_with_grant wB gA _ tA rA (Ok tokA) dtA HgA HrA)
    as (Hr2 & _ & _ & _ & Hkeep).
  set (w2 := env_steps wB _) in *.
  unfold suspendedLogin.
  rewrite interp_await, HeA. cbv zeta. fold w2. rewrite Hr2.
  rewrite (completeGrant_interp conf o _ tokA env _ Ho).
  destruct (storeGrant_facts conf o (formatKey (name conf)) tokA w2)
    as (Hp3 & _).
  set (w3 := storeGrant _ _ _ _ _) in *.
  assert (promises w3 !! gB = Some (mkPromise (KGrant (fresh wB1)) Pending))
    as HgB3.
  { rewrite Hp3. apply Hkeep; [subst gB gA; lia|done|done]. }
  assert (promises w3 !! rB = Some (mkPromise (KRace [gB; tB]) Pending)) as HrB3.
  { rewrite Hp3. apply Hkeep; [subst rB gA; lia|done|].
    intros ps [= <-]. rewrite !elem_of_cons, elem_of_nil.
    subst tB gB gA. lia. }
  destruct (race_settles_with_grant w3 gB _ tB rB (Ok tokB) dtB HgB3 HrB3)
    as (Hr4 & _).
  eexists _, _. split; [reflexivity|].
  rewrite interp_await, HeB. cbv zeta. rewrite Hr4.
  rewrite (completeGrant_interp conf o _ tokB env _ Ho). reflexivity.
Qed.

End Claims.

(** ** Beyond the claims: what else the module does *)

(** *** The environment and the module state *)

Lemma settle_frame p r w :
  tokens (settle p r w) = tokens w
  ∧ pendingGrants (settle p r w) = pendingGrants w
  ∧ fresh (settle p r w) = fresh w.
Proof. unfold settle. by destruct (promises w !! p) as [[k [|x]]|]. Qed.

(** The environment settles promises and moves the clock: it writes
    neither the TokenStore nor the registry, and creates no object. *)
Lemma env_step_frame w e :
  tokens (env_step w e) = tokens w
  ∧ pendingGrants (env_step w e) = pendingGrants w
  ∧ fresh (env_step w e) = fresh w.
Proof.
  destruct e as [ms|p r|p]; cbn.
  - done.
  - destruct (promises w !! p) as [[[s| |] [|x]]|]; try done.
    apply settle_frame.
  - destruct (promises w !! p) as [[[s|deadline [s e]|] [|x]]|]; try done.
    destruct (deadline <=? now w)%N; [|done].
    apply (settle_frame p (Err e) (log (EvServerClose s) w)).
Qed.

Lemma env_steps_frame w es :
  tokens (env_steps w es) = tokens w
  ∧ pendingGrants (env_steps w es) = pendingGrants w
  ∧ fresh (env_steps w es) = fresh w.
Proof.
  revert w. induction es as [|e es IH]; intros w; [done|].
  destruct (env_step_frame w e) as (H1 & H2 & H3).
  destruct (IH (env_step w e)) as (I1 & I2 & I3).
  unfold env_steps in *. cbn. by rewrite I1, I2, I3.
Qed.




(** A pending timer fires at its deadline or later, in any world: its
    callback closes the server and the race over it rejects. *)
Lemma race_settles_with_timer w g t r deadline s e dt :
  promises w !! t
  = Some (mkPromise (KTimer deadline (CloseThenThrow s e)) Pending) →
  promises w !! r = Some (mkPromise (KRace [g; t]) Pending) →
  (deadline ≤ now w + dt)%N →
  let w2 := env_steps w [Elapse dt; TimerFires t] in
  promises w2 !! r = Some (mkPromise (KRace [g; t]) (Settled (Err e)))
  ∧ trace w2 = trace w ++ [EvServerClose s].
Proof.
  intros Ht Hr Hdl. destruct w as [nw tk pg pm fr tr]. cbn in *.
  rewrite Ht. destruct (N.leb_spec deadline (nw + dt)) as [_|?]; [|lia].
  unfold run_callback, settle. cbn. rewrite Ht. cbn.
  assert (r ≠ t) as Hne by (intros ->; rewrite Ht in Hr; discriminate).
  split; [|done].
  rewrite lookup_fmap, lookup_insert_ne by done. rewrite Hr. cbn.
  rewrite bool_decide_eq_true_2
    by (apply elem_of_cons; right; apply elem_of_cons; by left).
  done.
Qed.

Lemma vaultCalls_app evs1 evs2 :
  vaultCalls (evs1 ++ evs2) = vaultCalls evs1 + vaultCalls evs2.
Proof. unfold vaultCalls. by rewrite List.filter_app, length_app. Qed.

Lemma closesOnly_vaultCalls closes : closesOnly closes → vaultCalls closes = 0.
Proof.
  induction 1 as [|e evs [s ->] _ IH]; [done|].
  exact IH.
Qed.

Lemma append_nil_l (x : string) : "" +:+ x = x.
Proof. reflexivity. Qed.

Section More.
Context `{Runtime}.

(** *** [fromVault] and the login operation *)

(** What [fromVault] does depends on the configuration and on the answers
    of the vault and of the provider, not on the world it runs in. *)
Lemma fromVault_run conf env :
  ∃ evs r,
    (∀ w, interp env (fromVault conf) w
          = (mkWorld (now w) (tokens w) (pendingGrants w) (promises w)
                     (fresh w) (trace w ++ evs), Returned r))
    ∧ ∀ tk, r = Some tk →
        ∃ o rq, oauth conf = Some o
                ∧ evs = [EvGetPassword (vaultId (name conf)) (str (clientId o));
                         EvRefresh rq].
Proof.
  destruct (vaultConfigured conf) eqn:Hc.
  - destruct (vaultConfigured_oauth conf Hc) as [o Ho].
    pose proof (λ w, fromVault_configured conf o env w Ho Hc) as Hrun.
    cbv zeta in Hrun.
    destruct (env_getPassword env _ _) as [tp|e].
    + destruct (if truthyS tp then deserializeToken tp else Ok None)
        as [[td|]|e].
      * destruct (env_refresh env _) as [token|e] eqn:Hre.
        -- eexists [_; _], _. split.
           ++ intros w. rewrite Hrun. unfold log. cbn.
              by rewrite <- app_assoc.
           ++ intros tk _. eauto.
        -- eexists [_; _], None. split; [|done].
           intros w. rewrite Hrun. unfold log. cbn. by rewrite <- app_assoc.
      * eexists [_], None. split; [|done]. intros w. by rewrite Hrun.
      * eexists [_], None. split; [|done]. intros w. by rewrite Hrun.
    + eexists [_], None. split; [|done]. intros w. by rewrite Hrun.
  - exists [], None. split; [|done].
    intros w. rewrite fromVault_unconfigured by done.
    rewrite app_nil_r. by destruct w.
Qed.

(** The vault gives a token: the login operation returns its accessToken
    at once. *)
Lemma login_vault_hit conf o env w w1 tk :
  saveCredentials o = true →
  tokens w !! formatKey (name conf) = None →
  interp env (fromVault conf) w = (w1, Returned (Some tk)) →
  interp env (login conf o) w = (w1, Returned (accessToken tk)).
Proof.
  intros Hs Ht Hrun. unfold login. prog_unfold. cbn [bind].
  erewrite interp_sync by reflexivity. cbn [tokens]. rewrite Ht.
  rewrite interp_bind. cbn [is_Some]. rewrite Hs. cbn.
  rewrite interp_bind, Hrun. reflexivity.
Qed.

(** A stored token: the login operation returns its accessToken at once. *)
Lemma login_stored conf o env w t :
  tokens w !! formatKey (name conf) = Some t →
  interp env (login conf o) w = (w, Returned (accessToken t)).
Proof.
  intros Ht. unfold login. prog_unfold. cbn [bind].
  erewrite interp_sync by reflexivity. rewrite Ht. cbn.
  rewrite andb_false_r. reflexivity.
Qed.

(** A login operation that throws threw at its wait for the race, which
    rejected. *)
Lemma login_throws_at_race conf o env w w1 w' e :
  oauth conf = Some o →
  tokens w !! formatKey (name conf) = None →
  vaultMiss env conf o w w1 →
  interp env (login conf o) w = (w', Thrown e) →
  let key := formatKey (formatKey (name conf)) in
  let r := S (S (S (fresh w1))) in
  w' = env_steps (grantWorld o key w1) (env_while_awaiting env r)
  ∧ ∃ k, promises w' !! r = Some (mkPromise k (Settled (Err e))).
Proof.
  intros Ho Ht Hm Hrun key r.
  rewrite (login_awaits_race conf o env w w1 Ht Hm), interp_await in Hrun.
  cbv zeta in Hrun. fold key r in Hrun.
  destruct (promises _ !! r) as [[k [|[tk|e0]]]|] eqn:Hr; try done.
  - by rewrite (completeGrant_interp conf o _ tk env _ Ho) in Hrun.
  - injection Hrun as <- <-. eauto.
Qed.

Lemma storeGrant_trace conf o c tk w :
  trace (storeGrant conf o c tk w)
  = trace w ++
    (if saveCredentials o && vaultConfigured conf
     then [EvSetPassword (vaultId (name conf)) (str (clientId o))
             (serializeToken (strip tk))]
     else []).
Proof.
  unfold storeGrant.
  destruct (saveCredentials o && vaultConfigured conf); [reflexivity|].
  cbn. by rewrite app_nil_r.
Qed.

(** The timer is tried before its deadline: nothing happens but the clock
    moving on. *)
Lemma grantWorld_timer_early o key w dt :
  (dt < 60000)%N →
  env_steps (grantWorld o key w) [Elapse dt; TimerFires (S (S (fresh w)))]
  = set_now (now w + dt) (grantWorld o key w).
Proof.
  intros Hdt. destruct w as [nw tk pg pm fr tr]. unfold grantWorld, env_steps.
  cbn. rewrite lookup_insert_ne by lia. rewrite lookup_insert_eq.
  destruct (N.leb_spec (nw + 60000) (nw + dt)) as [?|_]; [lia|]. reflexivity.
Qed.

(** X1. When the grant of a login operation resolves, the operation
    returns the accessToken, the whole token is in the TokenStore under
    [formatKey name], and the calls made since the vault was tried are the
    three that open the grant, followed, exactly when [saveCredentials] is
    set and clientId, clientSecret and loginUrl are all non-empty, by one
    write to the vault, of the serialized stripped token under the service
    [vaultId name] and the account clientId. *)
Theorem login_stores_and_saves_grant conf o env w w1 dt tk :
  oauth conf = Some o →
  tokens w !! formatKey (name conf) = None →
  vaultMiss env conf o w w1 →
  let s := fresh w1 in
  let r := S (S (S s)) in
  env_while_awaiting env r = [Elapse dt; GrantSettles (S s) (Ok tk)] →
  ∃ w',
    interp env (login conf o) w = (w', Returned (accessToken tk))
    ∧ tokens w' = <[formatKey (name conf) := tk]> (tokens w)
    ∧ trace w'
      = trace w1 ++ grantCalls o s ++
        (if saveCredentials o && vaultConfigured conf
         then [EvSetPassword (vaultId (name conf)) (str (clientId o))
                 (serializeToken (strip tk))]
         else []).
Proof.
  intros Ho Ht Hm s r Hs.
  rewrite (login_grant_resolves conf o env w w1 Ht Hm dt tk Hs).
  rewrite (completeGrant_interp conf o _ tk env _ Ho).
  destruct (grantWorld_grant_settles o (formatKey (formatKey (name conf)))
              w1 dt (Ok tk)) as (_ & _ & _ & Htk & _ & Htr).
  destruct (vaultMiss_frame conf o env w w1 Hm) as (evs & Hw1 & _).
  set (w2 := env_steps _ _) in *.
  destruct (storeGrant_facts conf o (formatKey (name conf)) tk w2)
    as (_ & _ & Htk' & _).
  eexists. split; [reflexivity|]. split.
  - rewrite Htk', Htk, Hw1. reflexivity.
  - rewrite storeGrant_trace, Htr. unfold grantWorld, grantCalls. cbn [trace].
    by rewrite <- app_assoc.
Qed.

(** X2. With [saveCredentials] set, no token in the TokenStore and a
    token restored from the vault, the login operation returns the
    restored accessToken after the vault read and the refresh, starts no
    grant, and does not put the token in the TokenStore: the next login
    operation reads the vault and refreshes again. *)
Theorem login_restores_without_caching conf o env w w1 tk :
  oauth conf = Some o →
  saveCredentials o = true →
  tokens w !! formatKey (name conf) = None →
  interp env (fromVault conf) w = (w1, Returned (Some tk)) →
  interp env (login conf o) w = (w1, Returned (accessToken tk))
  ∧ tokens w1 = tokens w
  ∧ pendingGrants w1 = pendingGrants w
  ∧ ∃ rq w2,
      let calls := [EvGetPassword (vaultId (name conf)) (str (clientId o));
                    EvRefresh rq] in
      trace w1 = trace w ++ calls
      ∧ interp env (login conf o) w1 = (w2, Returned (accessToken tk))
      ∧ trace w2 = trace w1 ++ calls.
Proof.
  intros Ho Hs Ht Hrun.
  destruct (fromVault_run conf env) as (evs & r0 & Hany & Hshape).
  pose proof (Hany w) as Hw. rewrite Hrun in Hw. injection Hw as Hw1 Hr0.
  destruct (Hshape tk (eq_sym Hr0)) as (o' & rq & Ho' & Hevs).
  rewrite Ho in Ho'. injection Ho' as <-.
  split; [by apply login_vault_hit|].
  subst w1. split; [reflexivity|]. split; [reflexivity|].
  exists rq. eexists. cbv zeta. split; [cbn; by rewrite Hevs|]. split.
  - apply login_vault_hit; [done | exact Ht |].
    rewrite Hany, <- Hr0. reflexivity.
  - cbn. by rewrite Hevs.
Qed.

(** What [deserializeToken] makes of the record [serializeToken] writes
    for a stripped token, in a runtime that reads that record back: the
    stripped token when its three fields are truthy, [undefined]
    otherwise. *)
Lemma deserialize_written_record (tk : Token) :
  jsonRoundTrip (objectOfToken (strip tk)) →
  deserializeToken (Some (serializeToken (strip tk)))
  = Ok (if truthy (accessToken tk) && truthy (refreshToken tk)
           && truthy (tokenType tk)
        then Some (strip tk) else None).
Proof.
  intros [Hne Hparse]. unfold serializeToken, deserializeToken, parseIfAny.
  cbn [truthyS].
  destruct (String.eqb_spec (JSON_stringify (objectOfToken (strip tk))) "")
    as [|_]; [done|].
  cbn [negb]. rewrite Hparse. cbn.
  by destruct (truthy (accessToken tk) && truthy (refreshToken tk)
               && truthy (tokenType tk)).
Qed.

(** X3. With clientId, clientSecret and loginUrl all non-empty, [toVault]
    and [fromVault] agree on where the record is and on what it holds.
    [toVault] writes [JSON.stringify] of the object of the stripped token
    under [vaultId name] and clientId, whatever the token's fields. When
    the vault gives that record back under the same service and account,
    in a runtime that reads the record back, [fromVault] reads it there
    and: if accessToken, refreshToken and tokenType of the token are all
    truthy, it asks to refresh a token with these three fields and returns
    the stripped answer, or [none] when the refresh fails; if one of them
    is falsy, it returns [none] and asks for no refresh. *)
Theorem vault_write_then_read conf o env w tk :
  oauth conf = Some o →
  vaultConfigured conf = true →
  let service := vaultId (name conf) in
  let account := str (clientId o) in
  let record := objectOfToken (strip tk) in
  jsonRoundTrip record →
  env_getPassword env service account = Ok (Some (JSON_stringify record)) →
  let rq := refreshRequest (clientId o) (clientSecret o) (loginUrl o)
              (strip tk) in
  let usable := truthy (accessToken tk) && truthy (refreshToken tk)
                && truthy (tokenType tk) in
  ∃ w1 w2,
    interp env (toVault conf tk) w = (w1, Returned tt)
    ∧ trace w1
      = trace w ++ [EvSetPassword service account (JSON_stringify record)]
    ∧ interp env (fromVault conf) w1
      = (w2, Returned (if usable
                       then match env_refresh env rq with
                            | Ok refreshed => Some (strip refreshed)
                            | Err _ => None
                            end
                       else None))
    ∧ trace w2
      = trace w1 ++ EvGetPassword service account
                    :: (if usable then [EvRefresh rq] else [])
    ∧ rq_accessToken rq = accessToken tk
    ∧ rq_refreshToken rq = refreshToken tk
    ∧ rq_tokenType rq = tokenType tk.
Proof.
  intros Ho Hc service account record Hrt Hget rq usable.
  pose proof (deserialize_written_record tk Hrt) as Hde.
  unfold serializeToken in Hde. fold record usable in Hde.
  destruct Hrt as [Hne _].
  set (w1 := log (EvSetPassword service account (JSON_stringify record)) w).
  assert (interp env (toVault conf tk) w = (w1, Returned tt)) as Hto.
  { pose proof Hc as Hc'. unfold toVault, vaultConfigured, oauthFields in *.
    rewrite Ho in *. rewrite Hc'. reflexivity. }
  assert (interp env (fromVault conf) w1
          = if usable
            then match env_refresh env rq with
                 | Ok refreshed =>
                     (log (EvRefresh rq) (log (EvGetPassword service account) w1),
                      Returned (Some (strip refreshed)))
                 | Err _ =>
                     (log (EvRefresh rq) (log (EvGetPassword service account) w1),
                      Returned None)
                 end
            else (log (EvGetPassword service account) w1, Returned None))
    as Hfrom.
  { rewrite (fromVault_configured conf o env w1 Ho Hc). cbv zeta.
    fold service account. rewrite Hget.
    assert (truthyS (Some (JSON_stringify record)) = true) as ->.
    { cbn. by destruct (String.eqb_spec (JSON_stringify record) ""). }
    rewrite Hde. destruct usable; [|reflexivity].
    fold rq. by destruct (env_refresh env rq). }
  exists w1.
  exists (if usable
          then log (EvRefresh rq) (log (EvGetPassword service account) w1)
          else log (EvGetPassword service account) w1).
  split; [exact Hto|]. split; [reflexivity|]. rewrite Hfrom.
  destruct usable.
  - split; [by destruct (env_refresh env rq)|].
    split; [|done]. unfold log. cbn. by rewrite <- app_assoc.
  - by repeat split.
Qed.

(** X4. [futureToken] only reads: whatever the environment does, it
    writes neither the TokenStore nor the registry, creates no server and
    no promise, and makes no call on a collaborator (what is added to the
    trace while it waits are closes by timers that fire). With a token
    stored for its argument it returns the accessToken at once, even when
    a grant is pending; with no token and no registry entry it resolves to
    [undefined] at once. *)
Theorem futureToken_only_reads env c w :
  ∃ w' out closes,
    interp env (futureToken c) w = (w', out)
    ∧ tokens w' = tokens w
    ∧ pendingGrants w' = pendingGrants w
    ∧ fresh w' = fresh w
    ∧ trace w' = trace w ++ closes
    ∧ closesOnly closes
    ∧ (∀ g, tokens w !! c = Some g → w' = w ∧ out = Returned (accessToken g))
    ∧ (tokens w !! c = None → pendingGrants w !! c = None →
       w' = w ∧ out = Returned JUndefined).
Proof.
  rewrite futureToken_interp.
  assert (closesOnly []) as Hnil by constructor.
  destruct (tokens w !! c) as [g|] eqn:Ht.
  { exists w, (Returned (accessToken g)), []. rewrite app_nil_r.
    do 6 (split; [done|]). split; [|done]. by intros ? [= <-]. }
  destruct (pendingGrants w !! c) as [p|] eqn:Hp.
  2:{ exists w, (Returned JUndefined), []. rewrite app_nil_r.
      do 6 (split; [done|]). by split. }
  rewrite interp_await. cbv zeta.
  destruct (env_steps_trace w (env_while_awaiting env p))
    as (closes & Htr & Hcl).
  destruct (env_steps_frame w (env_while_awaiting env p)) as (H1 & H2 & H3).
  set (w2 := env_steps _ _) in *.
  destruct (promises w2 !! p) as [[k [|[t|e]]]|];
    (eexists w2, _, closes; split; [reflexivity|];
     do 5 (split; [done|]); by split).
Qed.


(** X6. A login operation that fails, with the error of the grant or with
    the timeout, has written nothing: the TokenStore is as it was, and the
    calls made since the vault was tried are the three that open the grant
    and closes of login servers; nothing was written to the vault. *)
Theorem failed_login_stores_nothing conf o env w w1 w' e :
  oauth conf = Some o →
  tokens w !! formatKey (name conf) = None →
  vaultMiss env conf o w w1 →
  interp env (login conf o) w = (w', Thrown e) →
  tokens w' = tokens w
  ∧ ∃ closes,
      trace w' = trace w1 ++ grantCalls o (fresh w1) ++ closes
      ∧ closesOnly closes
      ∧ vaultCalls (grantCalls o (fresh w1) ++ closes) = 0.
Proof.
  intros Ho Ht Hm Hrun.
  destruct (login_throws_at_race conf o env w w1 w' e Ho Ht Hm Hrun)
    as (-> & _).
  destruct (vaultMiss_frame conf o env w w1 Hm) as (evs & Hw1 & _).
  destruct (env_steps_frame
              (grantWorld o (formatKey (formatKey (name conf))) w1)
              (env_while_awaiting env (S (S (S (fresh w1))))))
    as (Htk & _).
  destruct (env_steps_trace
              (grantWorld o (formatKey (formatKey (name conf))) w1)
              (env_while_awaiting env (S (S (S (fresh w1))))))
    as (closes & Htr & Hcl).
  split.
  - rewrite Htk. rewrite Hw1. reflexivity.
  - exists closes. split; [|split; [done|]].
    + rewrite Htr. unfold grantWorld, grantCalls. cbn [trace].
      by rewrite <- app_assoc.
    + rewrite vaultCalls_app, (closesOnly_vaultCalls closes Hcl). reflexivity.
Qed.

(** X7. The timeout counts 60000 ms from the start of the grant. A timer
    tried earlier does nothing: the login operation is still suspended on
    its race and no server was closed. Resumed once 60000 ms have passed
    in all, it fails with the timeout error, after one close. *)
Theorem login_waits_until_deadline conf o env w w1 dt :
  oauth conf = Some o →
  tokens w !! formatKey (name conf) = None →
  vaultMiss env conf o w w1 →
  let s := fresh w1 in
  let t := S (S s) in
  let r := S t in
  env_while_awaiting env r = [Elapse dt; TimerFires t] →
  (dt < 60000)%N →
  ∃ w',
    interp env (login conf o) w = (w', Blocked (suspendedLogin conf o r))
    ∧ trace w' = trace w1 ++ grantCalls o s
    ∧ ∀ env2 dt2,
        env_while_awaiting env2 r = [Elapse dt2; TimerFires t] →
        (60000 ≤ dt + dt2)%N →
        ∃ w'',
          interp env2 (suspendedLogin conf o r) w' = (w'', Thrown timeoutError)
          ∧ trace w'' = trace w' ++ [EvServerClose s].
Proof.
  intros Ho Ht Hm s t r Hs Hdt.
  rewrite (login_awaits_race conf o env w w1 Ht Hm), interp_await.
  fold s t r. rewrite Hs. cbv zeta.
  subst s t r. rewrite (grantWorld_timer_early _ _ _ _ Hdt).
  set (key := formatKey (formatKey (name conf))).
  set (w' := set_now _ _).
  assert (promises w' !! S (S (S (fresh w1)))
          = Some (mkPromise (KRace [S (fresh w1); S (S (fresh w1))]) Pending))
    as Hr.
  { subst w'. cbn. apply lookup_insert_eq. }
  assert (promises w' !! S (S (fresh w1))
          = Some (mkPromise (KTimer (now w1 + 60000)
                               (CloseThenThrow (fresh w1) timeoutError))
                            Pending)) as Htm.
  { subst w'. cbn. rewrite lookup_insert_ne by lia. apply lookup_insert_eq. }
  rewrite Hr. exists w'. split; [reflexivity|]. split; [reflexivity|].
  intros env2 dt2 Hs2 Hdt2. unfold suspendedLogin.
  rewrite interp_await, Hs2. cbv zeta.
  destruct (race_settles_with_timer w' _ _ _ _ _ _ dt2 Htm Hr) as (Hr2 & Htr2).
  { subst w'. cbn. lia. }
  rewrite Hr2. eexists. split; [reflexivity | exact Htr2].
Qed.


(** X9. A failed login operation does not block the next one: the next
    login operation for the connection builds a new server and a new
    grant, and when that grant resolves it returns its accessToken, stores
    the token, and removes the registry entry the failed one had left;
    [futureToken] of the key then no longer rejects. *)
Theorem retry_after_failed_login conf o env env2 w w1 w' w2 e dt tk :
  oauth conf = Some o →
  tokens w !! formatKey (name conf) = None →
  vaultMiss env conf o w w1 →
  interp env (login conf o) w = (w', Thrown e) →
  vaultMiss env2 conf o w' w2 →
  let key := formatKey (formatKey (name conf)) in
  let s := fresh w2 in
  let r := S (S (S s)) in
  env_while_awaiting env2 r = [Elapse dt; GrantSettles (S s) (Ok tk)] →
  pendingGrants w' !! key = Some (S (S (S (fresh w1))))
  ∧ s = 4 + fresh w1
  ∧ ∃ w'',
      interp env2 (login conf o) w' = (w'', Returned (accessToken tk))
      ∧ tokens w'' !! formatKey (name conf) = Some tk
      ∧ pendingGrants w'' !! key = None
      ∧ ∀ env3, ∃ v,
          interp env3 (futureToken key) w'' = (w'', Returned v).
Proof.
  intros Ho Ht Hm Hrun Hm2 key s r Hs.
  destruct (login_throws_at_race conf o env w w1 w' e Ho Ht Hm Hrun)
    as (Hw' & _).
  fold key in Hw'.
  destruct (vaultMiss_frame conf o env w w1 Hm) as (evs & Hw1 & _).
  destruct (env_steps_frame (grantWorld o key w1)
              (env_while_awaiting env (S (S (S (fresh w1))))))
    as (Htk & Hpg & Hfr).
  rewrite <- Hw' in Htk, Hpg, Hfr.
  destruct (vaultMiss_frame conf o env2 w' w2 Hm2) as (evs2 & Hw2 & _).
  assert (tokens w' !! formatKey (name conf) = None) as Ht'.
  { rewrite Htk, Hw1. exact Ht. }
  split; [rewrite Hpg; cbn; apply lookup_insert_eq|].
  split; [subst s; rewrite Hw2; cbn [fresh]; rewrite Hfr; reflexivity|].
  rewrite (login_grant_resolves conf o env2 w' w2 Ht' Hm2 dt tk Hs).
  rewrite (completeGrant_interp conf o _ tk env2 _ Ho).
  set (w3 := env_steps _ _).
  destruct (storeGrant_facts conf o (formatKey (name conf)) tk w3)
    as (_ & _ & Htk3 & Hpg3 & _).
  set (w'' := storeGrant _ _ _ _ _) in *.
  assert (pendingGrants w'' !! key = None) as Hgone.
  { rewrite Hpg3. apply lookup_delete_eq. }
  exists w''. split; [reflexivity|]. split; [|split; [exact Hgone|]].
  - rewrite Htk3. apply lookup_insert_eq.
  - intros env3. rewrite futureToken_interp, Hgone.
    destruct (tokens w'' !! key); eauto.
Qed.

(** X10. What [deserializeToken] gives. On [undefined] and on the empty
    string it gives [undefined], without parsing. It throws exactly when
    it is given a non-empty string that [JSON.parse] rejects, with the
    error of [JSON.parse]. When it gives a token, that is the parsed
    record reduced to its three fields, all three truthy. *)
Theorem deserializeToken_outcomes :
  deserializeToken None = Ok None
  ∧ deserializeToken (Some "") = Ok None
  ∧ (∀ s e,
       deserializeToken s = Err e
       ↔ ∃ text, s = Some text ∧ text ≠ "" ∧ JSON_parse text = Err e)
  ∧ (∀ s t,
       deserializeToken s = Ok (Some t) →
       tokenExtra t = []
       ∧ truthy (accessToken t) = true
       ∧ truthy (refreshToken t) = true
       ∧ truthy (tokenType t) = true
       ∧ ∃ text d, s = Some text ∧ text ≠ "" ∧ JSON_parse text = Ok d
                   ∧ t = strip (tokenOfObject d)).
Proof.
  split; [reflexivity|]. split; [reflexivity|]. split.
  - intros s e. unfold deserializeToken, parseIfAny. split.
    + destruct s as [text|]; cbn [truthyS].
      * destruct (String.eqb_spec text "") as [->|Hne]; cbn [negb].
        -- cbn. discriminate.
        -- destruct (JSON_parse text) as [d|e'] eqn:Hp.
           ++ by destruct (_ && _).
           ++ intros [= <-]. eauto.
      * cbn. discriminate.
    + intros (text & -> & Hne & Hp). cbn [truthyS].
      destruct (String.eqb_spec text "") as [|_]; [done|].
      cbn [negb]. by rewrite Hp.
  - intros s t. unfold deserializeToken, parseIfAny.
    destruct s as [text|]; cbn [truthyS]; [|cbn; discriminate].
    destruct (String.eqb_spec text "") as [->|Hne]; cbn [negb];
      [cbn; discriminate|].
    destruct (JSON_parse text) as [d|e'] eqn:Hp; [|discriminate].
    unfold jor. destruct (truthy d) eqn:Hd; [|cbn; discriminate].
    destruct (truthy (prop d "accessToken")) eqn:Ha; [|discriminate].
    destruct (truthy (prop d "refreshToken")) eqn:Hr; [|discriminate].
    destruct (truthy (prop d "tokenType")) eqn:Hty; [|discriminate].
    intros [= <-]. cbn. repeat split; try done. eauto 10.
Qed.

(** X11. Two connection names share one vault record exactly when
    [formatKey] gives them the same key: [vaultId] adds a fixed prefix and
    nothing else. *)
Theorem vaultId_shared_iff_same_key a b :
  vaultId a = vaultId b ↔ formatKey a = formatKey b.
Proof.
  unfold vaultId. split; [|by intros ->].
  intros Heq. cbv [String.append] in Heq. by injection Heq.
Qed.

(** X12. With [saveCredentials] unset the login operation never calls the
    vault nor the refresh exchange, whatever the TokenStore holds and
    whatever the environment does. *)
Theorem login_without_saveCredentials_skips_vault conf o env w :
  oauth conf = Some o →
  saveCredentials o = false →
  ∃ w' out evs,
    interp env (login conf o) w = (w', out)
    ∧ trace w' = trace w ++ evs
    ∧ vaultCalls evs = 0.
Proof.
  intros Ho Hs. destruct (tokens w !! formatKey (name conf)) as [t|] eqn:Ht.
  { rewrite (login_stored conf o env w t Ht).
    exists w, (Returned (accessToken t)), []. by rewrite app_nil_r. }
  assert (vaultMiss env conf o w w) as Hm.
  { unfold vaultMiss. by rewrite Hs. }
  rewrite (login_awaits_race conf o env w w Ht Hm), interp_await. cbv zeta.
  destruct (env_steps_trace
              (grantWorld o (formatKey (formatKey (name conf))) w)
              (env_while_awaiting env (S (S (S (fresh w))))))
    as (closes & Htr & Hcl).
  set (w2 := env_steps _ _) in *.
  assert (trace w2 = trace w ++ grantCalls o (fresh w) ++ closes) as Htr'.
  { rewrite Htr. unfold grantWorld, grantCalls. cbn [trace].
    by rewrite <- app_assoc. }
  assert (vaultCalls (grantCalls o (fresh w) ++ closes) = 0) as Hv.
  { rewrite vaultCalls_app, (closesOnly_vaultCalls closes Hcl). reflexivity. }
  destruct (promises w2 !! _) as [[k [|[tk|e]]]|];
    try (eexists _, _, _; split; [reflexivity|]; by split).
  rewrite (completeGrant_interp conf o _ tk env _ Ho).
  eexists _, _, _. split; [reflexivity|]. split; [|exact Hv].
  rewrite storeGrant_trace, Hs. cbn [andb]. by rewrite app_nil_r.
Qed.

End More.

(** *** The keys of the abapGit source controls *)

Lemma has_underscore_sep (x y : string) :
  Scm.has_underscore (x +:+ "_" +:+ y) = true.
Proof.
  induction x as [|c x IH]; [reflexivity|].
  rewrite append_cons. cbn [Scm.has_underscore]. rewrite IH.
  apply orb_true_r.
Qed.

(** Two texts around the separator are told apart when the texts before
    it, or the texts after it, have no separator of their own. *)
Lemma sep_injective (c1 k1 c2 k2 : string) :
  (Scm.has_underscore c1 = false ∧ Scm.has_underscore c2 = false)
  ∨ (Scm.has_underscore k1 = false ∧ Scm.has_underscore k2 = false) →
  c1 +:+ "_" +:+ k1 = c2 +:+ "_" +:+ k2 →
  c1 = c2 ∧ k1 = k2.
Proof.
  revert c2. induction c1 as [|a c1 IH]; intros [|b c2] Hcond Heq.
  - change (String "_" k1 = String "_" k2) in Heq. by injection Heq as ->.
  - change (String "_" k1 = String b (c2 +:+ "_" +:+ k2)) in Heq.
    injection Heq as <- ->.
    destruct Hcond as [[_ Hc]|[Hk _]]; [discriminate Hc|].
    by rewrite has_underscore_sep in Hk.
  - change (String a (c1 +:+ "_" +:+ k1) = String "_" k2) in Heq.
    injection Heq as -> <-.
    destruct Hcond as [[Hc _]|[_ Hk]]; [discriminate Hc|].
    by rewrite has_underscore_sep in Hk.
  - change (String a (c1 +:+ "_" +:+ k1) = String b (c2 +:+ "_" +:+ k2))
      in Heq.
    injection Heq as -> Heq.
    destruct (IH c2) as [-> ->]; [|exact Heq|done].
    destruct Hcond as [[Hc1 Hc2]|Hk]; [left|by right].
    cbn [Scm.has_underscore] in Hc1, Hc2.
    apply orb_false_iff in Hc1 as [_ Hc1].
    apply orb_false_iff in Hc2 as [_ Hc2]. done.
Qed.

(** X13. [scmKey] tells two repositories apart when the connection ids
    have no underscore, or when the repository keys have none. It does not
    in general: moving a part of the connection id that follows an
    underscore over to the repository key gives the same key. *)
Theorem scmKey_injective :
  (∀ c1 k1 c2 k2,
     (Scm.has_underscore c1 = false ∧ Scm.has_underscore c2 = false)
     ∨ (Scm.has_underscore k1 = false ∧ Scm.has_underscore k2 = false) →
     Scm.scmKey c1 k1 = Scm.scmKey c2 k2 →
     c1 = c2 ∧ k1 = k2)
  ∧ (∀ a b c : string,
       Scm.scmKey (a +:+ "_" +:+ b) c = Scm.scmKey a (b +:+ "_" +:+ c)).
Proof.
  split.
  - intros c1 k1 c2 k2 Hcond Heq. apply sep_injective; [exact Hcond|].
    unfold Scm.scmKey in Heq. cbv [String.append] in Heq.
    injection Heq as Heq. exact Heq.
  - intros a b c. unfold Scm.scmKey. by rewrite !append_assoc.
Qed.

(** *** Finding a source control *)

Lemma find_first {A} (f : A → bool) (l : list A) (d : A) :
  List.find f l = Some d
  ↔ ∃ before after,
      l = before ++ d :: after ∧ f d = true
      ∧ Forall (λ b, f b = false) before.
Proof.
  induction l as [|a l IH]; cbn.
  - split; [done|]. by intros ([|??] & ? & ? & _).
  - destruct (f a) eqn:Hfa.
    + split.
      * intros [= <-]. exists [], l. by repeat split.
      * intros ([|b before] & after & Hl & Hd & Hb).
        -- by injection Hl as <- _.
        -- injection Hl as <- _. apply Forall_cons in Hb as [Hb _].
           congruence.
    + rewrite IH. split.
      * intros (before & after & -> & Hd & Hb).
        exists (a :: before), after. repeat split; [done|].
        by constructor.
      * intros ([|b before] & after & Hl & Hd & Hb).
        -- injection Hl as <- _. congruence.
        -- injection Hl as <- ->. apply Forall_cons in Hb as [_ Hb].
           eauto.
Qed.

(** X14. [findSc] with a source control gives the first registered
    repository, in insertion order, whose source control is that very
    object, and [none] exactly when no registered repository has it; run
    without a source control it gives the repository registered first, and
    [none] exactly when none is registered. *)
Theorem findSc_first_registered scms :
  (∀ sc d,
     Scm.findSc scms (Some sc) = Some d
     ↔ ∃ before after,
         Scm.values scms = before ++ d :: after
         ∧ Scm.scm d = sc
         ∧ Forall (λ b, Scm.scm b ≠ sc) before)
  ∧ (∀ sc,
       Scm.findSc scms (Some sc) = None
       ↔ Forall (λ d, Scm.scm d ≠ sc) (Scm.values scms))
  ∧ (∀ d,
       Scm.findSc scms None = Some d
       ↔ ∃ after, Scm.values scms = d :: after)
  ∧ (Scm.findSc scms None = None ↔ scms = []).
Proof.
  unfold Scm.findSc. split; [|split; [|split]].
  - intros sc d. rewrite find_first. split.
    + intros (before & after & Hl & Hd & Hb). exists before, after.
      split; [done|]. split; [by apply Nat.eqb_eq|].
      eapply Forall_impl; [exact Hb|]. intros b. apply Nat.eqb_neq.
    + intros (before & after & Hl & Hd & Hb). exists before, after.
      split; [done|]. split; [by apply Nat.eqb_eq|].
      eapply Forall_impl; [exact Hb|]. intros b. apply Nat.eqb_neq.
  - intros sc. induction (Scm.values scms) as [|a l IH]; cbn.
    + split; [constructor|done].
    + destruct (Nat.eqb_spec (Scm.scm a) sc) as [Heq|Hne].
      * split; [done|]. intros Hall. by apply Forall_cons in Hall as [? _].
      * rewrite IH. split; [by constructor|].
        intros Hall. by apply Forall_cons in Hall as [_ ?].
  - intros d. destruct (Scm.values scms) as [|a l]; cbn.
    + split; [done|]. by intros [? ?].
    + split; [intros [= <-]; eauto|]. by intros [? [= <- _]].
  - unfold Scm.values. by destruct scms.
Qed.

(** *** The class of an object node *)

(** X15. [fromObjectNode] passes the type, the name and the URI of the
    node to the constructor unchanged, and chooses the class by the exact
    text of the type: [AbapPackage] for DEVC/K only, [AbapFunctionGroup]
    for FUGR/F only, [AbapSimpleObjectXml] for TABL/DT, DOMA/DD, DTEL/DE
    and TTYP/DA only, and the plain [AbapObject] for every other type. *)
Theorem fromObjectNode_class node :
  let made := Factory.fromObjectNode node in
  let type := Factory.OBJECT_TYPE node in
  Factory.arguments made
  = (type, Factory.OBJECT_NAME node, Factory.OBJECT_URI node)
  ∧ (Factory.objtype made = Factory.AbapPackage ↔ type = "DEVC/K")
  ∧ (Factory.objtype made = Factory.AbapFunctionGroup ↔ type = "FUGR/F")
  ∧ (Factory.objtype made = Factory.AbapSimpleObjectXml
     ↔ type ∈ ["TABL/DT"; "DOMA/DD"; "DTEL/DE"; "TTYP/DA"])
  ∧ (Factory.objtype made = Factory.AbapObject
     ↔ type ∉ ["DEVC/K"; "FUGR/F"; "TABL/DT"; "DOMA/DD"; "DTEL/DE";
               "TTYP/DA"]).
Proof.
  destruct node as [type nm uri].
  cbv [Factory.fromObjectNode Factory.OBJECT_TYPE Factory.OBJECT_NAME
       Factory.OBJECT_URI Factory.objtype Factory.arguments].
  split; [reflexivity|].
  rewrite !elem_of_cons, !elem_of_nil.
  destruct (String.eqb_spec type "DEVC/K") as [->|?];
    [cbn; intuition congruence|].
  destruct (String.eqb_spec type "FUGR/F") as [->|?];
    [cbn; intuition congruence|].
  destruct (String.eqb_spec type "TABL/DT") as [->|?];
    [cbn; intuition congruence|].
  destruct (String.eqb_spec type "DOMA/DD") as [->|?];
    [cbn; intuition congruence|].
  destruct (String.eqb_spec type "DTEL/DE") as [->|?];
    [cbn; intuition congruence|].
  destruct (String.eqb_spec type "TTYP/DA") as [->|?];
    cbn; intuition congruence.
Qed.

(** ** The claims on concrete runs *)

#[local] Existing Instance Sample.runtime.

(** C6 on a run: the stored token of "MyConn" is returned at once. *)
Lemma login_fast_path_witness :
  tokens Sample.world_with_token !! formatKey (name Sample.conf_plain)
  = Some Sample.token1
  ∧ interp Sample.quiet (login Sample.conf_plain Sample.o_plain)
           Sample.world_with_token
    = (Sample.world_with_token, Returned (JStr "a1")).
Proof.
  split; [reflexivity|].
  exact (proj2 (login_fast_path Sample.conf_plain Sample.o_plain Sample.quiet
                  Sample.world_with_token Sample.token1 eq_refl eq_refl)).
Defined.

(** C7 on records: [token1] survives the round trip, a record with an
    empty refreshToken is absent. *)
Lemma vault_record_round_trip_witness :
  (∃ t', deserializeToken (Some (serializeToken Sample.token1)) = Ok (Some t')
         ∧ accessToken t' = JStr "a1"
         ∧ refreshToken t' = JStr "r1"
         ∧ tokenType t' = JStr "bearer")
  ∧ deserializeToken (Some Sample.record_without_refresh) = Ok None.
Proof.
  destruct (vault_record_round_trip (H := Sample.runtime)) as [Hgood Hbad].
  split.
  - apply (Hgood Sample.token1); try reflexivity.
    split; [discriminate | reflexivity].
  - apply (Hbad Sample.record_without_refresh
             (JObj [("accessToken", JStr "a1"); ("refreshToken", JStr "");
                    ("tokenType", JStr "bearer")])); [reflexivity|].
    right; left; right; reflexivity.
Defined.

(** C8 on a run: the vault holds the stripped [token1], the provider
    refreshes it to [token2], and [fromVault] hands back the stripped
    [token2], with the access token "a2". *)
Lemma fromVault_returns_refreshed_witness :
  (interp Sample.vault_holds_token (fromVault Sample.conf_saving)
          Sample.world0).2
  = Returned (Some (strip Sample.token2))
  ∧ ∃ td refreshed,
      deserializeToken
        (Some (Sample.stringify (objectOfToken (strip Sample.token1))))
      = Ok (Some td)
      ∧ accessToken td = JStr "a1"
      ∧ env_refresh Sample.vault_holds_token
          (refreshRequest (Some "c1") (Some "s1") (Some "https://host") td)
        = Ok refreshed
      ∧ accessToken (strip Sample.token2) = accessToken refreshed.
Proof.
  split; [reflexivity|].
  assert (interp Sample.vault_holds_token (fromVault Sample.conf_saving)
                 Sample.world0
          = ((interp Sample.vault_holds_token (fromVault Sample.conf_saving)
                     Sample.world0).1, Returned (Some (strip Sample.token2))))
    as Hrun by (vm_compute; reflexivity).
  destruct (fromVault_returns_refreshed Sample.conf_saving
              Sample.vault_holds_token Sample.world0
              (interp Sample.vault_holds_token (fromVault Sample.conf_saving)
                      Sample.world0).1
              (strip Sample.token2) Hrun)
    as (o & stored & td & refreshed & Ho & Hget & Hde & _ & Hre & _ & Hacc & _).
  injection Ho as <-. injection Hget as <-.
  exists td, refreshed. split; [exact Hde|]. split; [|split; [exact Hre|exact Hacc]].
  cbv in Hde. injection Hde as <-. reflexivity.
Defined.

(** C9 on a run: the vault holds "{", which does not parse; [fromVault]
    returns [none] and the login operation starts an interactive grant. *)
Lemma fromVault_absorbs_failures_witness :
  deserializeToken (Some "{") = Err (mkError "SyntaxError")
  ∧ (∃ w', interp Sample.vault_corrupt (fromVault Sample.conf_saving)
                  Sample.world0 = (w', Returned None))
  ∧ grantsStarted
      (trace (interp Sample.vault_corrupt
                (login Sample.conf_saving Sample.o_saving) Sample.world0).1)
    = 1.
Proof.
  split; [reflexivity|].
  destruct (fromVault_absorbs_failures Sample.conf_saving Sample.vault_corrupt
              Sample.world0) as (_ & Hfail & Hthrough).
  split.
  - apply (Hfail Sample.o_saving eq_refl). right. exact I.
  - assert (interp Sample.vault_corrupt (fromVault Sample.conf_saving)
                   Sample.world0
            = ((interp Sample.vault_corrupt (fromVault Sample.conf_saving)
                       Sample.world0).1, Returned None))
      as Hrun by (vm_compute; reflexivity).
    rewrite (Hthrough Sample.o_saving _ eq_refl eq_refl eq_refl Hrun).
    reflexivity.
Defined.

(** C10 on a run: an [oauth] object without clientSecret and with an empty
    loginUrl still gives a login operation, which starts a grant with
    these credentials and touches the vault neither before nor after. *)
Lemma incomplete_oauth_still_logs_in_witness :
  vaultConfigured Sample.conf_partial = false
  ∧ oauthLogin Sample.conf_partial
    = Some (login Sample.conf_partial Sample.o_partial)
  ∧ ∃ w' closes,
      interp Sample.grants_resolve
             (login Sample.conf_partial Sample.o_partial) Sample.world0
      = (w', Returned (JStr "a1"))
      ∧ trace w'
        = [EvLoginServer 0; EvCfCodeGrant (Some "") (Some "c1") None 0 1;
           EvAfter 60000 2] ++ closes
      ∧ closesOnly closes.
Proof.
  destruct (incomplete_oauth_still_logs_in (H := Sample.runtime)
              Sample.conf_partial) as (_ & Hpartial).
  destruct (Hpartial Sample.o_partial eq_refl eq_refl)
    as (Hop & _ & _ & Hgrant).
  split; [reflexivity|]. split; [exact Hop|].
  destruct (Hgrant Sample.grants_resolve Sample.world0 eq_refl)
    as (w' & out & closes & Hrun & Htr & Hcl).
  exists w', closes.
  assert (out = Returned (JStr "a1")) as ->.
  { assert ((interp Sample.grants_resolve
               (login Sample.conf_partial Sample.o_partial) Sample.world0).2
            = Returned (JStr "a1")) as Hout by reflexivity.
    rewrite Hrun in Hout. exact Hout. }
  split; [exact Hrun|]. split; [exact Htr | exact Hcl].
Defined.

(** C5 on a run: nothing settles for 60 seconds, the timer fires, the
    login operation fails with the timeout error and the server 0 was
    closed once. *)
Lemma login_times_out_witness :
  (interp Sample.timer_fires (login Sample.conf_plain Sample.o_plain)
          Sample.world0).2
  = Thrown (mkError "User logon timed out")
  ∧ closeCalls 0
      (trace (interp Sample.timer_fires
                (login Sample.conf_plain Sample.o_plain) Sample.world0).1)
    = 1.
Proof.
  destruct (login_times_out Sample.conf_plain Sample.o_plain Sample.timer_fires
              Sample.world0 Sample.world0 60000
              eq_refl eq_refl eq_refl eq_refl (N.le_refl _))
    as (w' & evs & Hrun & _ & Htr & Hevs & Hclose & _).
  rewrite Hrun. split; [reflexivity|].
  cbn [fst]. rewrite Htr. exact Hclose.
Defined.

(** C2 on a run: the grant of "MyConn" rejects with invalid_client; the
    login operation throws that error and the registry still maps the
    connection to the race 3, now rejected. With the grant resolving, the
    entry is gone. *)
Lemma registry_entry_after_race_witness :
  (∃ w', interp Sample.grant_rejects (login Sample.conf_plain Sample.o_plain)
                Sample.world0
         = (w', Thrown (mkError "invalid_client"))
         ∧ pendingGrants w' !! "myconn" = Some 3)
  ∧ (∃ w', interp Sample.timer_fires (login Sample.conf_plain Sample.o_plain)
                  Sample.world0
           = (w', Thrown timeoutError)
           ∧ pendingGrants w' !! "myconn" = Some 3)
  ∧ (∃ w', interp Sample.grants_resolve
             (login Sample.conf_plain Sample.o_plain) Sample.world0
           = (w', Returned (JStr "a1"))
           ∧ pendingGrants w' !! "myconn" = None).
Proof.
  split; [|split].
  - destruct (registry_entry_after_race Sample.conf_plain Sample.o_plain
                Sample.grant_rejects Sample.world0 Sample.world0
                eq_refl eq_refl eq_refl) as (_ & Hrej & _).
    destruct (Hrej 1000%N (mkError "invalid_client") eq_refl)
      as (w' & Hrun & Hpg & _).
    exists w'. split; [exact Hrun | exact Hpg].
  - destruct (registry_entry_after_race Sample.conf_plain Sample.o_plain
                Sample.timer_fires Sample.world0 Sample.world0
                eq_refl eq_refl eq_refl) as (_ & _ & Htime).
    destruct (Htime 60000%N (N.le_refl _) eq_refl) as (w' & Hrun & Hpg & _).
    exists w'. split; [exact Hrun | exact Hpg].
  - destruct (registry_entry_after_race Sample.conf_plain Sample.o_plain
                Sample.grants_resolve Sample.world0 Sample.world0
                eq_refl eq_refl eq_refl) as (Hres & _).
    destruct (Hres 1000%N Sample.token1 eq_refl) as (w' & Hrun & Hpg).
    exists w'. split; [exact Hrun | exact Hpg].
Defined.

(** C3 does not hold as worded: the grant of "MyConn" resolves after one
    second and the login operation returns "a1" with the server 0 never
    closed; 59 seconds later the timer fires and closes the server. *)
Lemma timer_after_grant_counterexample :
  let run := interp Sample.grants_resolve
               (login Sample.conf_plain Sample.o_plain) Sample.world0 in
  let later := env_steps run.1 [Elapse 59000; TimerFires 2] in
  run.2 = Returned (JStr "a1")
  ∧ closeCalls 0 (trace run.1) = 0
  ∧ trace later = trace run.1 ++ [EvServerClose 0]
  ∧ closeCalls 0 (trace later) = 1
  ∧ ¬ (closeCalls 0 (trace later) = closeCalls 0 (trace run.1)).
Proof.
  cbv zeta. repeat split; try (vm_compute; reflexivity).
  vm_compute. discriminate.
Qed.

(** C3 (as amended) on the same run. *)
Lemma grant_first_then_timer_closes_witness :
  ∃ w',
    interp Sample.grants_resolve (login Sample.conf_plain Sample.o_plain)
           Sample.world0
    = (w', Returned (JStr "a1"))
    ∧ tokens w' !! "myconn" = Some Sample.token1
    ∧ closeCalls 0 (trace w') = 0
    ∧ closeCalls 0 (trace (env_steps w' [Elapse 59000; TimerFires 2])) = 1
    ∧ promises (env_steps w' [Elapse 59000; TimerFires 2]) !! 3
      = Some (mkPromise (KRace [1; 2]) (Settled (Ok Sample.token1))).
Proof.
  destruct (grant_first_then_timer_closes Sample.conf_plain Sample.o_plain
              Sample.grants_resolve Sample.world0 Sample.world0 1000
              Sample.token1 eq_refl eq_refl eq_refl eq_refl)
    as (w' & Hrun & Htok & Hclose & Hlater).
  destruct (Hlater 59000%N (N.le_refl _)) as (_ & Hclose' & _ & _ & Hrace).
  exists w'. split; [exact Hrun|]. split; [exact Htok|].
  split; [exact Hclose|]. split; [|exact Hrace].
  transitivity (S (closeCalls 0 (trace w'))); [exact Hclose'|].
  f_equal. exact Hclose.
Defined.

(** C1 does not hold as worded: a second login operation for "MyConn",
    started while the grant of the first is pending, starts a second
    grant; the grants resolve with [token1] and [token2], so the first call
    returns "a1" and the second "a2". *)
Lemma concurrent_logins_counterexample :
  let a := interp Sample.quiet (login Sample.conf_plain Sample.o_plain)
             Sample.world0 in
  let b := interp Sample.quiet (login Sample.conf_plain Sample.o_plain) a.1 in
  let a' := interp Sample.grants_resolve
              (suspendedLogin Sample.conf_plain Sample.o_plain 3) b.1 in
  let b' := interp Sample.grants_resolve
              (suspendedLogin Sample.conf_plain Sample.o_plain 7) a'.1 in
  tokens Sample.world0 !! "myconn" = None
  ∧ a.2 = Blocked (suspendedLogin Sample.conf_plain Sample.o_plain 3)
  ∧ tokens a.1 !! "myconn" = None
  ∧ b.2 = Blocked (suspendedLogin Sample.conf_plain Sample.o_plain 7)
  ∧ grantsStarted (trace b.1) = 2
  ∧ a'.2 = Returned (JStr "a1")
  ∧ b'.2 = Returned (JStr "a2")
  ∧ ¬ (a'.2 = b'.2 ∧ grantsStarted (trace b.1) = 1).
Proof.
  cbv zeta. repeat split; try reflexivity.
  intros [_ Hone]. vm_compute in Hone. discriminate.
Qed.

(** C1 (as amended) on the same run. *)
Lemma concurrent_logins_each_start_a_grant_witness :
  let wA := grantWorld Sample.o_plain "myconn" Sample.world0 in
  let wB := grantWorld Sample.o_plain "myconn" wA in
  interp Sample.quiet (login Sample.conf_plain Sample.o_plain) Sample.world0
  = (wA, Blocked (suspendedLogin Sample.conf_plain Sample.o_plain 3))
  ∧ interp Sample.quiet (login Sample.conf_plain Sample.o_plain) wA
    = (wB, Blocked (suspendedLogin Sample.conf_plain Sample.o_plain 7))
  ∧ grantsStarted (trace wB) = 2
  ∧ pendingGrants wB !! "myconn" = Some 7
  ∧ ∃ w3 w4,
      interp Sample.grants_resolve
             (suspendedLogin Sample.conf_plain Sample.o_plain 3) wB
      = (w3, Returned (JStr "a1"))
      ∧ interp Sample.grants_resolve
               (suspendedLogin Sample.conf_plain Sample.o_plain 7) w3
        = (w4, Returned (JStr "a2")).
Proof.
  destruct (concurrent_logins_each_start_a_grant (H := Sample.runtime)
              Sample.conf_plain
              Sample.o_plain Sample.quiet Sample.quiet Sample.world0
              Sample.world0
              (grantWorld Sample.o_plain "myconn" Sample.world0)
              eq_refl eq_refl eq_refl eq_refl
              ltac:(hnf; reflexivity) eq_refl)
    as (HA & _ & _ & HB & _ & Hcount & Hreg & Hboth).
  cbv zeta. split; [exact HA|]. split; [exact HB|].
  split; [exact Hcount|]. split; [exact Hreg|].
  exact (Hboth Sample.grants_resolve 1000%N 1000%N Sample.token1 Sample.token2
           eq_refl eq_refl).
Defined.


(** ** The further properties on concrete runs *)

(** X1 on a run: "MyConn" with [saveCredentials] and an empty vault; the
    grant resolves with [token1], which is stored whole, and its three
    fields are written to the vault. *)
Lemma login_stores_and_saves_grant_witness :
  ∃ w',
    interp Sample.grants_resolve (login Sample.conf_saving Sample.o_saving)
           Sample.world0
    = (w', Returned (JStr "a1"))
    ∧ tokens w' !! "myconn" = Some Sample.token1
    ∧ trace w'
      = [EvGetPassword "vscode_git_myconn" "c1";
         EvLoginServer 0;
         EvCfCodeGrant (Some "https://host") (Some "c1") (Some "s1") 0 1;
         EvAfter 60000 2;
         EvSetPassword "vscode_git_myconn" "c1"
           (Sample.stringify
              (JObj [("accessToken", JStr "a1"); ("refreshToken", JStr "r1");
                     ("tokenType", JStr "bearer")]))].
Proof.
  destruct (login_stores_and_saves_grant (H := Sample.runtime)
              Sample.conf_saving Sample.o_saving Sample.grants_resolve
              Sample.world0
              (log (EvGetPassword "vscode_git_myconn" "c1") Sample.world0)
              1000 Sample.token1
              eq_refl eq_refl ltac:(hnf; reflexivity) eq_refl)
    as (w' & Hrun & Htk & Htr).
  exists w'. split; [exact Hrun|]. split; [|exact Htr].
  rewrite Htk. apply lookup_insert_eq.
Defined.

(** X2 on a run: the vault holds [token1] and the provider refreshes it
    to [token2]; two login operations in a row both return "a2", each
    after a vault read and a refresh, and the TokenStore stays empty. *)
Lemma login_restores_without_caching_witness :
  ∃ w1 w2 rq,
    interp Sample.vault_holds_token
           (login Sample.conf_saving Sample.o_saving) Sample.world0
    = (w1, Returned (JStr "a2"))
    ∧ tokens w1 !! "myconn" = None
    ∧ interp Sample.vault_holds_token
             (login Sample.conf_saving Sample.o_saving) w1
      = (w2, Returned (JStr "a2"))
    ∧ trace w2
      = [EvGetPassword "vscode_git_myconn" "c1"; EvRefresh rq;
         EvGetPassword "vscode_git_myconn" "c1"; EvRefresh rq].
Proof.
  assert (interp Sample.vault_holds_token (fromVault Sample.conf_saving)
                 Sample.world0
          = ((interp Sample.vault_holds_token (fromVault Sample.conf_saving)
                     Sample.world0).1, Returned (Some (strip Sample.token2))))
    as Hrun by (vm_compute; reflexivity).
  destruct (login_restores_without_caching (H := Sample.runtime)
              Sample.conf_saving Sample.o_saving Sample.vault_holds_token
              Sample.world0 _ (strip Sample.token2)
              eq_refl eq_refl eq_refl Hrun)
    as (Hlogin & Htk & _ & rq & w2 & Htr1 & Hrun2 & Htr2).
  eexists _, w2, rq. split; [exact Hlogin|]. split; [by rewrite Htk|].
  split; [exact Hrun2|]. rewrite Htr2, Htr1. reflexivity.
Defined.

(** X3 on runs: [token1] written by [toVault] for "MyConn" and read back
    by [fromVault], which asks to refresh the token "r1" and gets
    [token2]; and a token with an empty refreshToken, written as well,
    for which [fromVault] returns [none] without a refresh. *)
Lemma vault_write_then_read_witness :
  (∃ w1 w2 secret rq,
     interp Sample.vault_holds_token
            (toVault Sample.conf_saving Sample.token1) Sample.world0
     = (w1, Returned tt)
     ∧ interp Sample.vault_holds_token (fromVault Sample.conf_saving) w1
       = (w2, Returned (Some (strip Sample.token2)))
     ∧ trace w2
       = [EvSetPassword "vscode_git_myconn" "c1" secret;
          EvGetPassword "vscode_git_myconn" "c1"; EvRefresh rq]
     ∧ rq_refreshToken rq = JStr "r1")
  ∧ (let tk := mkToken (JStr "a1") (JStr "") (JStr "bearer") [] in
     let env := mkEnv (λ _ _, Ok (Some Sample.record_without_refresh))
                      (λ _, Ok Sample.token2) (λ _, []) in
     ∃ w1 w2,
       interp env (toVault Sample.conf_saving tk) Sample.world0
       = (w1, Returned tt)
       ∧ interp env (fromVault Sample.conf_saving) w1 = (w2, Returned None)
       ∧ trace w2
         = [EvSetPassword "vscode_git_myconn" "c1"
              Sample.record_without_refresh;
            EvGetPassword "vscode_git_myconn" "c1"]).
Proof.
  split.
  - assert (jsonRoundTrip (H := Sample.runtime)
              (objectOfToken (strip Sample.token1))) as Hrt.
    { split; [vm_compute; discriminate | vm_compute; reflexivity]. }
    destruct (vault_write_then_read (H := Sample.runtime)
                Sample.conf_saving Sample.o_saving Sample.vault_holds_token
                Sample.world0 Sample.token1
                eq_refl eq_refl Hrt eq_refl)
      as (w1 & w2 & Hto & Htr1 & Hfrom & Htr2 & _ & Href & _).
    eexists w1, w2, _, _. split; [exact Hto|]. split; [exact Hfrom|].
    split; [|exact Href]. rewrite Htr2, Htr1. reflexivity.
  - cbv zeta.
    assert (jsonRoundTrip (H := Sample.runtime)
              (objectOfToken
                 (strip (mkToken (JStr "a1") (JStr "") (JStr "bearer") []))))
      as Hrt.
    { split; [vm_compute; discriminate | vm_compute; reflexivity]. }
    destruct (vault_write_then_read (H := Sample.runtime)
                Sample.conf_saving Sample.o_saving
                (mkEnv (λ _ _, Ok (Some Sample.record_without_refresh))
                       (λ _, Ok Sample.token2) (λ _, []))
                Sample.world0
                (mkToken (JStr "a1") (JStr "") (JStr "bearer") [])
                eq_refl eq_refl Hrt eq_refl)
      as (w1 & w2 & Hto & Htr1 & Hfrom & Htr2 & _).
    exists w1, w2. split; [exact Hto|]. split; [exact Hfrom|].
    rewrite Htr2, Htr1. reflexivity.
Defined.

(** X4 on runs: with [token1] stored for "myconn", [futureToken] returns
    "a1" and changes nothing; in the empty world it resolves to
    [undefined]. *)
Lemma futureToken_only_reads_witness :
  interp Sample.quiet (futureToken "myconn") Sample.world_with_token
  = (Sample.world_with_token, Returned (JStr "a1"))
  ∧ interp Sample.quiet (futureToken "myconn") Sample.world0
    = (Sample.world0, Returned JUndefined).
Proof.
  split.
  - destruct (futureToken_only_reads Sample.quiet
                "myconn" Sample.world_with_token)
      as (w' & out & closes & Hrun & _ & _ & _ & _ & _ & Hfast & _).
    destruct (Hfast Sample.token1 eq_refl) as [-> ->]. exact Hrun.
  - reflexivity.
Defined.


(** X6 on a run: the grant of "MyConn" rejects; the TokenStore is still
    empty and the vault was not called. *)
Lemma failed_login_stores_nothing_witness :
  ∃ w',
    interp Sample.grant_rejects (login Sample.conf_plain Sample.o_plain)
           Sample.world0
    = (w', Thrown (mkError "invalid_client"))
    ∧ tokens w' = ∅
    ∧ vaultCalls (trace w') = 0.
Proof.
  assert (interp Sample.grant_rejects (login Sample.conf_plain Sample.o_plain)
                 Sample.world0
          = ((interp Sample.grant_rejects
                (login Sample.conf_plain Sample.o_plain) Sample.world0).1,
             Thrown (mkError "invalid_client"))) as Hrun.
  { rewrite (surjective_pairing (interp _ _ _)) at 1. f_equal. }
  destruct (failed_login_stores_nothing (H := Sample.runtime)
              Sample.conf_plain Sample.o_plain Sample.grant_rejects
              Sample.world0 Sample.world0 _ _
              eq_refl eq_refl eq_refl Hrun)
    as (Htk & closes & Htr & _ & Hv).
  eexists. split; [exact Hrun|]. split; [exact Htk|].
  rewrite Htr. exact Hv.
Defined.

(** X7 on a run: after 30 seconds the timer does not fire and the login
    operation of "MyConn" is still suspended; 60 seconds later it fires,
    the server 0 is closed and the operation fails with the timeout. *)
Lemma login_waits_until_deadline_witness :
  ∃ w' w'',
    interp Sample.timer_early (login Sample.conf_plain Sample.o_plain)
           Sample.world0
    = (w', Blocked (suspendedLogin Sample.conf_plain Sample.o_plain 3))
    ∧ closeCalls 0 (trace w') = 0
    ∧ interp Sample.timer_fires
             (suspendedLogin Sample.conf_plain Sample.o_plain 3) w'
      = (w'', Thrown timeoutError)
    ∧ closeCalls 0 (trace w'') = 1.
Proof.
  destruct (login_waits_until_deadline (H := Sample.runtime)
              Sample.conf_plain Sample.o_plain Sample.timer_early
              Sample.world0 Sample.world0 30000
              eq_refl eq_refl eq_refl eq_refl eq_refl)
    as (w' & Hrun & Htr & Hlater).
  destruct (Hlater Sample.timer_fires 60000%N eq_refl ltac:(vm_compute; discriminate))
    as (w'' & Hrun2 & Htr2).
  exists w', w''. split; [exact Hrun|]. split; [by rewrite Htr|].
  split; [exact Hrun2|]. by rewrite Htr2, Htr.
Defined.


(** X9 on a run: the first grant of "MyConn" rejects and leaves the race
    3 in the registry; the next login operation builds the server 4 and
    the grant 5, which resolves with [token2]: it returns "a2" and the
    registry entry is gone. *)
Lemma retry_after_failed_login_witness :
  ∃ w' w'',
    interp Sample.grant_rejects (login Sample.conf_plain Sample.o_plain)
           Sample.world0
    = (w', Thrown (mkError "invalid_client"))
    ∧ pendingGrants w' !! "myconn" = Some 3
    ∧ fresh w' = 4
    ∧ interp Sample.grants_resolve (login Sample.conf_plain Sample.o_plain) w'
      = (w'', Returned (JStr "a2"))
    ∧ tokens w'' !! "myconn" = Some Sample.token2
    ∧ pendingGrants w'' !! "myconn" = None.
Proof.
  assert (interp Sample.grant_rejects (login Sample.conf_plain Sample.o_plain)
                 Sample.world0
          = ((interp Sample.grant_rejects
                (login Sample.conf_plain Sample.o_plain) Sample.world0).1,
             Thrown (mkError "invalid_client"))) as Hrun.
  { rewrite (surjective_pairing (interp _ _ _)) at 1. f_equal. }
  destruct (retry_after_failed_login (H := Sample.runtime)
              Sample.conf_plain Sample.o_plain Sample.grant_rejects
              Sample.grants_resolve Sample.world0 Sample.world0 _ _ _
              1000 Sample.token2
              eq_refl eq_refl eq_refl Hrun ltac:(hnf; reflexivity) eq_refl)
    as (Hstale & Hfresh & w'' & Hrun2 & Htk & Hgone & _).
  eexists _, w''. split; [exact Hrun|]. split; [exact Hstale|].
  split; [exact Hfresh|]. split; [exact Hrun2|]. split; [exact Htk|exact Hgone].
Defined.

(** X10 on records: "{" does not parse and [deserializeToken] throws the
    error of the parser; the record of [token1] gives a token without
    further fields. *)
Lemma deserializeToken_outcomes_witness :
  deserializeToken (Some "{") = Err (mkError "SyntaxError")
  ∧ ∀ t,
      deserializeToken (Some (serializeToken Sample.token1)) = Ok (Some t) →
      tokenExtra t = [] ∧ truthy (refreshToken t) = true.
Proof.
  destruct (deserializeToken_outcomes (H := Sample.runtime))
    as (_ & _ & Hthrows & Hgives).
  split.
  - apply Hthrows. exists "{". split; [reflexivity|].
    split; [discriminate | reflexivity].
  - intros t Ht. destruct (Hgives _ t Ht) as (Hextra & _ & Hr & _).
    split; [exact Hextra | exact Hr].
Defined.

(** X11 in the sample runtime, where keys are in lower case: "MyConn" and
    "myconn" share the vault record "vscode_git_myconn". *)
Lemma vaultId_shared_iff_same_key_witness :
  vaultId "MyConn" = vaultId "myconn" ∧ vaultId "MyConn" ≠ vaultId "other".
Proof.
  split.
  - by apply (vaultId_shared_iff_same_key (H := Sample.runtime)).
  - intros Heq.
    apply (vaultId_shared_iff_same_key (H := Sample.runtime)) in Heq.
    discriminate Heq.
Defined.

(** X12 on a run: "MyConn" without [saveCredentials]; the grant resolves
    and the vault was never called. *)
Lemma login_without_saveCredentials_skips_vault_witness :
  ∃ w' out,
    interp Sample.grants_resolve (login Sample.conf_plain Sample.o_plain)
           Sample.world0
    = (w', out)
    ∧ vaultCalls (trace w') = 0.
Proof.
  destruct (login_without_saveCredentials_skips_vault (H := Sample.runtime)
              Sample.conf_plain Sample.o_plain Sample.grants_resolve
              Sample.world0 eq_refl eq_refl)
    as (w' & out & evs & Hrun & Htr & Hv).
  exists w', out. split; [exact Hrun|]. rewrite Htr. exact Hv.
Defined.

(** X13 on keys: the key of the repository "000000000001" of the
    connection "dev100", and two repositories with the same key. *)
Lemma scmKey_injective_witness :
  Scm.scmKey "dev100" "000000000001" = "abapGit_dev100_000000000001"
  ∧ (∀ c k, Scm.has_underscore c = false →
            Scm.scmKey c k = Scm.scmKey "dev100" "000000000001" →
            c = "dev100" ∧ k = "000000000001")
  ∧ Scm.scmKey "dev_100" "1" = Scm.scmKey "dev" "100_1".
Proof.
  destruct scmKey_injective as [Hinj Hclash].
  split; [reflexivity|]. split.
  - intros c k Hc Heq. apply Hinj; [left; by split | exact Heq].
  - exact (Hclash "dev" "100" "1").
Defined.

(** X14 on a registry of two repositories, with the source controls 7 and
    9: [findSc] of 9 gives the second, of 8 nothing, and without a source
    control the first. *)
Lemma findSc_first_registered_witness :
  let repo1 := Scm.mkRepo "0001" "ZPKG1" "master" in
  let repo2 := Scm.mkRepo "0002" "ZPKG2" "main" in
  let d1 := Scm.mkScmData 7 "dev100" repo1 false None in
  let d2 := Scm.mkScmData 9 "dev100" repo2 true
              (Some (Scm.mkCredentials (Some "me") None)) in
  let scms := [(Scm.scmKey "dev100" "0001", d1);
               (Scm.scmKey "dev100" "0002", d2)] in
  Scm.findSc scms (Some 9) = Some d2
  ∧ Scm.findSc scms (Some 8) = None
  ∧ Scm.findSc scms None = Some d1.
Proof.
  cbv zeta.
  match goal with
  | |- Scm.findSc ?scms _ = _ ∧ _ =>
      destruct (findSc_first_registered scms) as (Hsome & Hnone & Hfirst & _)
  end.
  split; [|split].
  - apply Hsome. eexists [_], []. split; [reflexivity|].
    split; [reflexivity|]. repeat constructor. discriminate.
  - apply Hnone. repeat constructor; discriminate.
  - apply Hfirst. eexists. reflexivity.
Defined.

(** X15 on nodes: a package, a table, and a type written in lower case,
    which is no package. *)
Lemma fromObjectNode_class_witness :
  Factory.objtype
    (Factory.fromObjectNode (Factory.mkNode "DEVC/K" "ZPKG" "/sap/bc/adt/zpkg"))
  = Factory.AbapPackage
  ∧ Factory.objtype
      (Factory.fromObjectNode (Factory.mkNode "TABL/DT" "ZTAB" "/sap/bc/adt/ztab"))
    = Factory.AbapSimpleObjectXml
  ∧ Factory.objtype
      (Factory.fromObjectNode (Factory.mkNode "devc/k" "ZPKG" "/sap/bc/adt/zpkg"))
    = Factory.AbapObject.
Proof.
  split; [|split].
  - by apply (fromObjectNode_class
                (Factory.mkNode "DEVC/K" "ZPKG" "/sap/bc/adt/zpkg")).
  - apply (fromObjectNode_class
             (Factory.mkNode "TABL/DT" "ZTAB" "/sap/bc/adt/ztab")).
    cbn. rewrite !elem_of_cons. by left.
  - apply (fromObjectNode_class
             (Factory.mkNode "devc/k" "ZPKG" "/sap/bc/adt/zpkg")).
    cbn. rewrite !elem_of_cons, elem_of_nil. intuition discriminate.
Defined.
